(** * ByteDB-Analyser: evidence vault and forensic analytics engine

    A shallow embedding of
    - [EvidenceVault] (src/services/reportService.ts, lines 741-1137):
      archival, chain of custody, integrity verification, case summary;
    - [FraudDetectionEngine] and [TimelineEngine] (the analytics module,
      lines 1-346 of its source file),
    followed by the properties of the specification that concern them.

    Conventions of the embedding.
    - A JavaScript [Map] is an association list in insertion order
      ([JsMap]); [set] on a present key keeps the key's position.
    - A method that mutates the vault is a function in the monad [Eff]:
      it takes the state and returns a completion (normal value or thrown
      message) together with the state as the method left it.  A [throw]
      does not roll back what was mutated before it, as in JavaScript.
    - [Date.now()], [Math.random()], [crypto.getRandomValues] and the
      [crypto.subtle] primitives are not code of the repository: they are
      the fields of a [Platform].  The k-th reading of the clock is
      [dateNow k]; the state counts the readings made so far.
    - An object held in the registry is mutated in place by the source; the
      embedding rewrites the registry entry of that object.  A record
      returned to the caller is the value of the object at that moment.
    - The methods are [async]; each one is embedded as one atomic step.
    - JavaScript numbers that hold counts, sizes, amounts and millisecond
      timestamps are [Z] (integers in the exactly representable range);
      the ratios the analytics engine computes in floating point are
      binary64 primitive floats, as in the source. *)

From Stdlib Require Import ZArith List String Ascii Bool Lia Sorted.
From Stdlib Require Import Strings.Byte DecimalString.
From Stdlib Require Import Floats.PrimFloat Numbers.Cyclic.Int63.Uint63.
Import ListNotations.

Open Scope list_scope.
Open Scope string_scope.
Open Scope Z_scope.

(** ** JavaScript values shared by the modules *)

(** [String(n)] for an integer [n] of magnitude below 10^21: decimal
    digits with a leading minus sign for negatives.  (From 10^21 on
    JavaScript prints an exponent; the counts, amounts and millisecond
    timestamps of the code stay far below.) *)
Definition numberToString (z : Z) : string :=
  NilZero.string_of_int (Z.to_int z).

(** A JavaScript [Map] with string keys, in insertion order. *)
Definition JsMap (V : Type) : Type := list (string * V).

Fixpoint map_get {V} (k : string) (m : JsMap V) : option V :=
  match m with
  | [] => None
  | (k', v) :: rest => if String.eqb k' k then Some v else map_get k rest
  end.

Definition map_has {V} (k : string) (m : JsMap V) : bool :=
  match map_get k m with Some _ => true | None => false end.

Fixpoint map_set {V} (k : string) (v : V) (m : JsMap V) : JsMap V :=
  match m with
  | [] => [(k, v)]
  | (k', v') :: rest =>
      if String.eqb k' k then (k', v) :: rest else (k', v') :: map_set k v rest
  end.

Definition map_values {V} (m : JsMap V) : list V := map snd m.

(** The object stored under [k] is mutated in place. *)
Fixpoint map_update {V} (k : string) (f : V -> V) (m : JsMap V) : JsMap V :=
  match m with
  | [] => []
  | (k', v) :: rest =>
      if String.eqb k' k then (k', f v) :: rest else (k', v) :: map_update k f rest
  end.

(** Completion of a call: a returned value or a thrown [Error] message. *)
Inductive Completion (A : Type) : Type :=
| Normal (a : A)
| Throw (message : string).
Arguments Normal {A} a.
Arguments Throw {A} message.

(** State-and-exception monad of the vault's methods. *)
Definition Eff (St A : Type) : Type := St -> Completion A * St.

Definition ret {St A} (a : A) : Eff St A := fun s => (Normal a, s).

Definition throw {St A} (message : string) : Eff St A :=
  fun s => (Throw message, s).

Definition bind {St A B} (m : Eff St A) (k : A -> Eff St B) : Eff St B :=
  fun s =>
    match m s with
    | (Normal a, s') => k a s'
    | (Throw message, s') => (Throw message, s')
    end.

(** [try { body } catch (error) { handler error.message }] *)
Definition tryCatch {St A} (body : Eff St A) (handler : string -> Eff St A)
  : Eff St A :=
  fun s =>
    match body s with
    | (Normal a, s') => (Normal a, s')
    | (Throw message, s') => handler message s'
    end.

Declare Scope eff_scope.
Delimit Scope eff_scope with eff.
Notation "x <- m ;; k" := (bind m (fun x => k))
  (at level 100, m at next level, right associativity) : eff_scope.
Notation "m ;;; k" := (bind m (fun _ => k))
  (at level 100, right associativity) : eff_scope.

(** Number of a non-negative count as a binary64 value (exact below 2^53). *)
Definition toNumber (z : Z) : float :=
  if z <? 0 then PrimFloat.opp (PrimFloat.of_uint63 (Uint63.of_Z (- z)))
  else PrimFloat.of_uint63 (Uint63.of_Z z).

(** ** EvidenceVault (reportService.ts) *)

Module EvidenceVault.

Inductive ChainAction := created | accessed | verified | exported | signed.

Record ChainEntry := {
  entryTimestamp : Z;
  action : ChainAction;
  investigator : string;
  notes : option string;
  hash : option string
}.

Inductive EvidenceStatus :=
| status_archived | status_processing | status_verified | status_flagged.

Record EvidenceMetadata := {
  source : string;
  database : option string;
  table : option string;
  recordCount : option Z;
  lastModified : option Z
}.

(** [generateEncryptionKey] returns the empty object [{}]. *)
Inductive CryptoKey := emptyKeyObject.

Record VaultEvidence := {
  id : string;
  caseId : string;
  fileName : string;
  fileHash : string;
  encryptedHash : string;
  timestamp : Z;
  size : Z;
  category : string;
  tags : list string;
  metadata : EvidenceMetadata;
  chainOfCustody : list ChainEntry;
  status : EvidenceStatus;
  integrityVerified : bool;
  encryptionKey : option CryptoKey
}.

Definition pushChainEntry (entry : ChainEntry) (e : VaultEvidence) : VaultEvidence :=
  {| id := id e; caseId := caseId e; fileName := fileName e;
     fileHash := fileHash e; encryptedHash := encryptedHash e;
     timestamp := timestamp e; size := size e; category := category e;
     tags := tags e; metadata := metadata e;
     chainOfCustody := chainOfCustody e ++ [entry];
     status := status e; integrityVerified := integrityVerified e;
     encryptionKey := encryptionKey e |}.

Definition setIntegrityVerified (b : bool) (e : VaultEvidence) : VaultEvidence :=
  {| id := id e; caseId := caseId e; fileName := fileName e;
     fileHash := fileHash e; encryptedHash := encryptedHash e;
     timestamp := timestamp e; size := size e; category := category e;
     tags := tags e; metadata := metadata e;
     chainOfCustody := chainOfCustody e;
     status := status e; integrityVerified := b;
     encryptionKey := encryptionKey e |}.

(** The object signed by [exportEvidence]. *)
Record SignaturePayload := {
  sig_evidenceId : string;
  sig_hash : string;
  sig_timestamp : Z;
  sig_investigator : string
}.

Inductive AuditDetails :=
| ArchivedDetails (fileName hash : string) (size : Z)
| AccessedDetails (investigator purpose : string)
| ExportedDetails (format investigator signature : string).

(** One line written by [logAuditEvent] to the console. *)
Record AuditEntry := {
  auditTimestamp : Z;
  auditCaseId : string;
  auditEvidenceId : string;
  auditAction : string;
  auditDetails : AuditDetails
}.

(** What the vault takes from the JavaScript platform. *)
Record Platform := {
  dateNow : nat -> Z;
  mathRandomSuffix : nat -> string;
  getRandomValues : nat -> list byte;
  subtleDigest : list byte -> Completion (list byte);
  subtleEncrypt : list byte -> CryptoKey -> list byte -> Completion (list byte);
  jsonEncode : SignaturePayload -> list byte
}.

Record VaultState := {
  evidenceRegistry : JsMap VaultEvidence;
  clockReads : nat;
  randomDraws : nat;
  ivDraws : nat;
  console : list AuditEntry
}.

Definition emptyVault : VaultState :=
  {| evidenceRegistry := []; clockReads := 0; randomDraws := 0; ivDraws := 0;
     console := [] |}.

Definition M := Eff VaultState.

Section Methods.

Variable P : Platform.

Local Open Scope eff_scope.

(** [Date.now()] *)
Definition DateNow : M Z :=
  fun s =>
    (Normal (dateNow P (clockReads s)),
     {| evidenceRegistry := evidenceRegistry s; clockReads := S (clockReads s);
        randomDraws := randomDraws s; ivDraws := ivDraws s; console := console s |}).

(** [Math.random().toString(36).substring(7)] *)
Definition MathRandomSuffix : M string :=
  fun s =>
    (Normal (mathRandomSuffix P (randomDraws s)),
     {| evidenceRegistry := evidenceRegistry s; clockReads := clockReads s;
        randomDraws := S (randomDraws s); ivDraws := ivDraws s; console := console s |}).

(** [crypto.getRandomValues(new Uint8Array(12))] *)
Definition GetRandomValues : M (list byte) :=
  fun s =>
    (Normal (getRandomValues P (ivDraws s)),
     {| evidenceRegistry := evidenceRegistry s; clockReads := clockReads s;
        randomDraws := randomDraws s; ivDraws := S (ivDraws s); console := console s |}).

Definition liftCompletion {A} (c : Completion A) : M A := fun s => (c, s).

Definition registryGet (evidenceId : string) : M (option VaultEvidence) :=
  fun s => (Normal (map_get evidenceId (evidenceRegistry s)), s).

Definition registrySet (evidenceId : string) (e : VaultEvidence) : M unit :=
  fun s =>
    (Normal tt,
     {| evidenceRegistry := map_set evidenceId e (evidenceRegistry s);
        clockReads := clockReads s; randomDraws := randomDraws s;
        ivDraws := ivDraws s; console := console s |}).

(** In-place mutation of the object that [registryGet evidenceId] returned. *)
Definition mutateEvidence (evidenceId : string) (f : VaultEvidence -> VaultEvidence)
  : M unit :=
  fun s =>
    (Normal tt,
     {| evidenceRegistry := map_update evidenceId f (evidenceRegistry s);
        clockReads := clockReads s; randomDraws := randomDraws s;
        ivDraws := ivDraws s; console := console s |}).

Definition consoleLog (entry : AuditEntry) : M unit :=
  fun s =>
    (Normal tt,
     {| evidenceRegistry := evidenceRegistry s; clockReads := clockReads s;
        randomDraws := randomDraws s; ivDraws := ivDraws s;
        console := console s ++ [entry] |}).

(** *** Private helpers *)

Definition hexDigit (n : N) : ascii :=
  match n with
  | 0%N => "0" | 1%N => "1" | 2%N => "2" | 3%N => "3" | 4%N => "4"
  | 5%N => "5" | 6%N => "6" | 7%N => "7" | 8%N => "8" | 9%N => "9"
  | 10%N => "a" | 11%N => "b" | 12%N => "c" | 13%N => "d" | 14%N => "e"
  | _ => "f"
  end%char.

(** [b.toString(16).padStart(2, '0')] *)
Definition byteToHex (b : byte) : string :=
  let n := Byte.to_N b in
  String (hexDigit (N.div n 16)) (String (hexDigit (N.modulo n 16)) EmptyString).

Definition calculateHash (data : list byte) : M string :=
  hashBuffer <- liftCompletion (subtleDigest P data) ;;
  ret (String.concat "" (map byteToHex hashBuffer)).

Definition encryptData (data : list byte) (key : CryptoKey) : M (list byte) :=
  iv <- GetRandomValues ;;
  encrypted <- liftCompletion (subtleEncrypt P iv key data) ;;
  ret encrypted.

Definition generateEncryptionKey : CryptoKey := emptyKeyObject.

Definition generateEvidenceId : M string :=
  now <- DateNow ;;
  suffix <- MathRandomSuffix ;;
  ret ("EV-" ++ numberToString now ++ "-" ++ suffix).

(** [s.split(sep)] for a one-character separator. *)
Fixpoint splitOn (sep : ascii) (s : string) : list string :=
  match s with
  | EmptyString => [EmptyString]
  | String c rest =>
      if Ascii.eqb c sep then EmptyString :: splitOn sep rest
      else match splitOn sep rest with
           | h :: t => String c h :: t
           | [] => [String c EmptyString]
           end
  end.

Definition toLowerAscii (c : ascii) : ascii :=
  let n := nat_of_ascii c in
  if ((65 <=? n) && (n <=? 90))%nat then ascii_of_nat (n + 32) else c.

Fixpoint toLowerCase (s : string) : string :=
  match s with
  | EmptyString => EmptyString
  | String c rest => String (toLowerAscii c) (toLowerCase rest)
  end.

Definition includes (l : list string) (x : string) : bool :=
  existsb (String.eqb x) l.

Definition categorizeFile (fileName : string) : string :=
  let ext := toLowerCase (last (splitOn "."%char fileName) EmptyString) in
  if includes ["sql"; "csv"; "json"] ext then "database_export"
  else if includes ["log"; "txt"] ext then "logs"
  else if includes ["pdf"; "doc"; "docx"] ext then "documents"
  else "other".

Definition generateSignature (data : SignaturePayload) : M string :=
  hashBuffer <- calculateHash (jsonEncode P data) ;;
  ret ("SIG-" ++ String.substring 0 32 hashBuffer).

Definition logAuditEvent (caseId evidenceId action : string) (details : AuditDetails)
  : M unit :=
  now <- DateNow ;;
  consoleLog {| auditTimestamp := now; auditCaseId := caseId;
                auditEvidenceId := evidenceId; auditAction := action;
                auditDetails := details |}.

(** *** Public methods *)

Definition archiveEvidence (caseId fileName : string) (fileData : list byte)
    (metadata : EvidenceMetadata) (tags : list string) : M VaultEvidence :=
  tryCatch
    ((* 1. hash of the original data *)
     originalHash <- calculateHash fileData ;;
     (* 2. encrypt the data *)
     let encryptionKey := generateEncryptionKey in
     encryptedData <- encryptData fileData encryptionKey ;;
     (* 3. hash of the encrypted data *)
     encryptedHash <- calculateHash encryptedData ;;
     (* 4. chain-of-custody entry *)
     createdAt <- DateNow ;;
     let chainEntry :=
       {| entryTimestamp := createdAt; action := created;
          investigator := "System"; hash := Some originalHash;
          notes := Some "Evidence archived and encrypted" |} in
     (* 5. the evidence record *)
     newId <- generateEvidenceId ;;
     recordedAt <- DateNow ;;
     let vaultEvidence :=
       {| id := newId; caseId := caseId; fileName := fileName;
          fileHash := originalHash; encryptedHash := encryptedHash;
          timestamp := recordedAt; size := Z.of_nat (List.length fileData);
          category := categorizeFile fileName; tags := tags;
          metadata := metadata; chainOfCustody := [chainEntry];
          status := status_archived; integrityVerified := true;
          encryptionKey := Some encryptionKey |} in
     (* 6. store in the registry *)
     registrySet (id vaultEvidence) vaultEvidence ;;;
     (* 7. audit trail *)
     logAuditEvent caseId (id vaultEvidence) "ARCHIVED"
       (ArchivedDetails fileName originalHash (Z.of_nat (List.length fileData))) ;;;
     ret vaultEvidence)
    (fun message => throw ("Evidence archival failed: " ++ message)).

Record VerificationOutcome := {
  valid : bool;
  message : string;
  originalHash : string;
  currentHash : string
}.

Definition verifyIntegrity (evidenceId investigator : string)
  : M VerificationOutcome :=
  found <- registryGet evidenceId ;;
  match found with
  | None => throw ("Evidence not found: " ++ evidenceId)
  | Some evidence =>
      tryCatch
        (let isValid := true in
         now <- DateNow ;;
         mutateEvidence evidenceId
           (pushChainEntry
              {| entryTimestamp := now; action := verified;
                 investigator := investigator;
                 hash := Some (fileHash evidence);
                 notes := Some "Integrity verified - no tampering detected" |}) ;;;
         mutateEvidence evidenceId (setIntegrityVerified isValid) ;;;
         ret {| valid := isValid;
                message := "Evidence integrity verified - no tampering detected";
                originalHash := fileHash evidence;
                currentHash := encryptedHash evidence |})
        (fun error =>
           ret {| valid := false;
                  message := "Integrity verification failed: " ++ error;
                  originalHash := fileHash evidence;
                  currentHash := "ERROR" |})
  end.

Record AccessOutcome := {
  accessSuccess : bool;
  accessEvidenceRecord : option VaultEvidence;
  accessMessage : string
}.

Definition accessEvidence (evidenceId investigator purpose : string)
  : M AccessOutcome :=
  found <- registryGet evidenceId ;;
  match found with
  | None =>
      ret {| accessSuccess := false; accessEvidenceRecord := None;
             accessMessage := "Evidence not found: " ++ evidenceId |}
  | Some evidence =>
      tryCatch
        (now <- DateNow ;;
         mutateEvidence evidenceId
           (pushChainEntry
              {| entryTimestamp := now; action := accessed;
                 investigator := investigator; hash := None;
                 notes := Some ("Accessed for: " ++ purpose) |}) ;;;
         logAuditEvent (caseId evidence) evidenceId "ACCESSED"
           (AccessedDetails investigator purpose) ;;;
         current <- registryGet evidenceId ;;
         ret {| accessSuccess := true; accessEvidenceRecord := current;
                accessMessage := "Evidence accessed - logged in chain-of-custody" |})
        (fun error =>
           ret {| accessSuccess := false; accessEvidenceRecord := None;
                  accessMessage := "Access failed: " ++ error |})
  end.

Inductive ExportFormat := encrypted | decrypted.

Definition formatName (f : ExportFormat) : string :=
  match f with encrypted => "encrypted" | decrypted => "decrypted" end.

Record ExportMetadata := {
  exportedFileHash : string;
  exportedTimestamp : Z;
  exportedChainOfCustody : list ChainEntry
}.

Record ExportOutcome := {
  exportSuccess : bool;
  exportData : option (list byte);
  exportSignature : option string;
  exportMetadata : option ExportMetadata
}.

Definition exportFailed : ExportOutcome :=
  {| exportSuccess := false; exportData := None; exportSignature := None;
     exportMetadata := None |}.

Definition exportEvidence (evidenceId investigator : string) (format : ExportFormat)
  : M ExportOutcome :=
  found <- registryGet evidenceId ;;
  match found with
  | None => ret exportFailed
  | Some evidence =>
      tryCatch
        (now <- DateNow ;;
         mutateEvidence evidenceId
           (pushChainEntry
              {| entryTimestamp := now; action := exported;
                 investigator := investigator; hash := None;
                 notes := Some ("Exported in " ++ formatName format ++ " format") |}) ;;;
         signedAt <- DateNow ;;
         signature <- generateSignature
                        {| sig_evidenceId := evidenceId; sig_hash := fileHash evidence;
                           sig_timestamp := signedAt; sig_investigator := investigator |} ;;
         logAuditEvent (caseId evidence) evidenceId "EXPORTED"
           (ExportedDetails (formatName format) investigator signature) ;;;
         current <- registryGet evidenceId ;;
         ret {| exportSuccess := true; exportData := Some [];
                exportSignature := Some signature;
                exportMetadata :=
                  Some {| exportedFileHash := fileHash evidence;
                          exportedTimestamp := timestamp evidence;
                          exportedChainOfCustody :=
                            match current with
                            | Some e => chainOfCustody e
                            | None => []
                            end |} |})
        (fun _ => ret exportFailed)
  end.

End Methods.

Inductive IntegrityStatus := all_verified | partial_verified | unverified.

Record CaseSummary := {
  totalEvidence : Z;
  totalSize : Z;
  integrityStatus : IntegrityStatus;
  summaryLastModified : Z;
  evidenceList : list VaultEvidence
}.

Definition getCaseSummary (wanted : string) (s : VaultState) : CaseSummary :=
  let caseEvidence :=
    filter (fun e => String.eqb (caseId e) wanted)
           (map_values (evidenceRegistry s)) in
  let allVerified := forallb integrityVerified caseEvidence in
  let partialVerified := existsb integrityVerified caseEvidence in
  {| totalEvidence := Z.of_nat (List.length caseEvidence);
     totalSize := fold_left (fun sum e => sum + size e) caseEvidence 0;
     integrityStatus :=
       if allVerified then all_verified
       else if partialVerified then partial_verified else unverified;
     summaryLastModified := fold_right Z.max 0 (map timestamp caseEvidence);
     evidenceList := caseEvidence |}.

(** *** Sequences of custody operations on a vault *)

Inductive CustodyOp :=
| OpAccess (evidenceId investigator purpose : string)
| OpVerify (evidenceId investigator : string)
| OpExport (evidenceId investigator : string) (format : ExportFormat).

(** The state a call leaves behind, whatever it returned or threw. *)
Definition runOp (P : Platform) (op : CustodyOp) (s : VaultState) : VaultState :=
  match op with
  | OpAccess i inv p => snd (accessEvidence P i inv p s)
  | OpVerify i inv => snd (verifyIntegrity P i inv s)
  | OpExport i inv f => snd (exportEvidence P i inv f s)
  end.

Definition runOps (P : Platform) (ops : list CustodyOp) (s : VaultState) : VaultState :=
  fold_left (fun st op => runOp P op st) ops s.

(** The custody chain of the record stored under [evidenceId]. *)
Definition custodyOf (evidenceId : string) (s : VaultState) : option (list ChainEntry) :=
  option_map chainOfCustody (map_get evidenceId (evidenceRegistry s)).

End EvidenceVault.

(** ** Analytics engine: result types *)

Module Analytics.

Inductive ResultType := fraud | timeline | correlation | pattern | anomaly.

Inductive Severity := critical | high | medium | low.

(** [relatedRecords] is [any[]] in the source; [Rel] is what a given engine
    puts there. *)
Record Finding (Rel : Type) := {
  findingId : string;
  severity : Severity;
  category : string;
  description : string;
  evidence : list string;
  relatedRecords : list Rel
}.
Arguments findingId {Rel} f.
Arguments severity {Rel} f.
Arguments category {Rel} f.
Arguments description {Rel} f.
Arguments evidence {Rel} f.
Arguments relatedRecords {Rel} f.

Record AnalyticsResult (Rel Meta : Type) := {
  type : ResultType;
  riskScore : Z;
  findings : list (Finding Rel);
  recommendations : list string;
  metadata : Meta
}.
Arguments type {Rel Meta} a.
Arguments riskScore {Rel Meta} a.
Arguments findings {Rel Meta} a.
Arguments recommendations {Rel Meta} a.
Arguments metadata {Rel Meta} a.

End Analytics.

(** ** FraudDetectionEngine *)

Module FraudDetectionEngine.
Import Analytics.

Record Transaction := {
  from : string;
  to : string;
  amount : Z;
  timestamp : Z
}.

(** *** Benford's law *)

Record AnomalousDigit := { digit : Z; deviation : string }.

Record BenfordAnalysis := {
  benfordAnomaly : bool;
  anomalousDigits : list AnomalousDigit;
  flaggedTransactions : list Z
}.

(** [parseInt] of a one-character string; [None] is [NaN]. *)
Definition parseIntChar (c : ascii) : option Z :=
  let n := Z.of_nat (nat_of_ascii c) in
  if (48 <=? n) && (n <=? 57) then Some (n - 48) else None.

(** [parseInt(String(amount).charAt(0))] *)
Definition firstDigitOf (amount : Z) : option Z :=
  match numberToString amount with
  | String c _ => parseIntChar c
  | EmptyString => None
  end.

Definition sameKey (a b : option Z) : bool :=
  match a, b with
  | Some x, Some y => x =? y
  | None, None => true
  | _, _ => false
  end.

(** The tally object [firstDigits]; an absent key reads as [0], which is
    what [firstDigits[d] || 0] yields. *)
Definition tallyDigit (firstDigits : option Z -> Z) (amount : Z) : option Z -> Z :=
  let firstDigit := firstDigitOf amount in
  fun k => if sameKey k firstDigit then firstDigits k + 1 else firstDigits k.

#[local] Set Warnings "-inexact-float".

Definition benfordLaw (d : Z) : float :=
  match d with
  | 1 => 0.301 | 2 => 0.176 | 3 => 0.125 | 4 => 0.097 | 5 => 0.079
  | 6 => 0.067 | 7 => 0.058 | 8 => 0.051 | 9 => 0.046
  | _ => PrimFloat.nan
  end%float.

Definition digitDeviation (firstDigits : option Z -> Z) (total : Z) (d : Z) : float :=
  let observed := (toNumber (firstDigits (Some d)) / toNumber total)%float in
  let expected := benfordLaw d in
  (PrimFloat.abs ((observed - expected) / expected) * 100)%float.

Section Engine.

(** [Number.prototype.toFixed], as the platform renders it. *)
Variable toFixed : float -> Z -> string.

Definition analyzeBenford (transactions : list Transaction) : BenfordAnalysis :=
  let amounts := filter (fun a => 0 <? a) (map (fun t => Z.abs (amount t)) transactions) in
  let firstDigits := fold_left tallyDigit amounts (fun _ => 0) in
  let total := Z.of_nat (List.length amounts) in
  let anomalous :=
    flat_map
      (fun d =>
         let deviation := digitDeviation firstDigits total d in
         if PrimFloat.ltb 20 deviation
         then [{| digit := d; deviation := toFixed deviation 2 |}]
         else [])
      [1; 2; 3; 4; 5; 6; 7; 8; 9] in
  {| benfordAnomaly := (3 <? List.length anomalous)%nat;
     anomalousDigits := anomalous;
     flaggedTransactions := firstn 10 amounts |}.

(** *** Circular transfers *)

Record Cycle := { accounts : list string }.

Definition setAdd (x : string) (s : list string) : list string :=
  if existsb (String.eqb x) s then s else (s ++ [x])%list.

Definition addEdge (accountGraph : JsMap (list string)) (t : Transaction)
  : JsMap (list string) :=
  let accountGraph :=
    if map_has (from t) accountGraph then accountGraph
    else map_set (from t) [] accountGraph in
  map_update (from t) (setAdd (to t)) accountGraph.

(** The graph is built and no search is run on it: [cycles] is returned as
    it was initialised. *)
Definition detectCircularTransfers (transactions : list Transaction) : list Cycle :=
  let accountGraph := fold_left addEdge transactions [] in
  let cycles : list Cycle := [] in
  cycles.

(** *** Round numbers *)

Record RoundNumbers := {
  roundCount : Z;
  percentage : float;
  roundTransactions : list Transaction
}.

Definition isRound (t : Transaction) : bool :=
  (Z.rem (amount t) 100 =? 0) || (Z.rem (amount t) 1000 =? 0).

Definition detectRoundNumbers (transactions : list Transaction) : RoundNumbers :=
  let rounds := filter isRound transactions in
  {| roundCount := Z.of_nat (List.length rounds);
     percentage :=
       (toNumber (Z.of_nat (List.length rounds))
        / toNumber (Z.of_nat (List.length transactions)) * 100)%float;
     roundTransactions := rounds |}.

(** *** Duplicates *)

(** [{...t, timeDifference, duplicateOf: prev.id}] *)
Record Duplicate := {
  duplicated : Transaction;
  timeDifference : Z;
  duplicateOf : nat
}.

(** [`${t.from}-${t.to}-${t.amount}`] *)
Definition duplicateKey (t : Transaction) : string :=
  from t ++ "-" ++ to t ++ "-" ++ numberToString (amount t).

(** The [forEach] of [detectDuplicates]: [idx] is the index of the head of
    [transactions]; [seen] maps a key to [{...t, id: idx}] of the first
    transaction that had it. *)
Fixpoint duplicatesLoop (transactions : list Transaction) (idx : nat)
    (seen : JsMap (Transaction * nat)) (duplicates : list Duplicate)
  : list Duplicate :=
  match transactions with
  | [] => duplicates
  | t :: rest =>
      let key := duplicateKey t in
      match map_get key seen with
      | Some (prev, prevId) =>
          let timeDifference := Z.abs (timestamp t - timestamp prev) in
          if timeDifference <? 300
          then duplicatesLoop rest (S idx) seen
                 (duplicates ++ [{| duplicated := t; timeDifference := timeDifference;
                                    duplicateOf := prevId |}])%list
          else duplicatesLoop rest (S idx) seen duplicates
      | None => duplicatesLoop rest (S idx) (map_set key (t, idx) seen) duplicates
      end
  end.

Definition detectDuplicates (transactions : list Transaction) : list Duplicate :=
  duplicatesLoop transactions 0 [] [].

(** *** Velocity *)

Record VelocityAnomaly := {
  account : string;
  count : Z;
  timeWindow : Z;
  velocity : string
}.

Definition recordActivity (accountActivity : JsMap (list Transaction)) (t : Transaction)
  : JsMap (list Transaction) :=
  let accountActivity :=
    if map_has (from t) accountActivity then accountActivity
    else map_set (from t) [] accountActivity in
  map_update (from t) (fun txns => txns ++ [t])%list accountActivity.

Definition detectVelocityAnomalies (transactions : list Transaction)
  : list VelocityAnomaly :=
  let accountActivity := fold_left recordActivity transactions [] in
  let timeWindow := 60 in
  flat_map
    (fun entry : string * list Transaction =>
       let (account, txns) := entry in
       if (50 <? List.length txns)%nat
       then [{| account := account;
                count := Z.of_nat (List.length txns);
                timeWindow := timeWindow;
                velocity :=
                  toFixed (toNumber (Z.of_nat (List.length txns)) / toNumber timeWindow)%float 2 |}]
       else [])
    accountActivity.

(** *** The fraud report *)

Inductive FraudRelated :=
| RelatedAmount (a : Z)
| RelatedCycle (c : Cycle)
| RelatedTransaction (t : Transaction)
| RelatedDuplicate (d : Duplicate)
| RelatedVelocity (v : VelocityAnomaly).

Record FraudMetadata := {
  analyzedRecords : Z;
  suspiciousPatterns : Z
}.

Definition FraudFinding := Finding FraudRelated.
Definition FraudResult := AnalyticsResult FraudRelated FraudMetadata.

Definition generateFraudRecommendations (findings : list FraudFinding) : list string :=
  map
    (fun f =>
       if String.eqb (category f) "Money Laundering"
       then "Recommend immediate freeze of circular transfer chains and FATF investigation"
       else if String.eqb (category f) "Duplicate Transactions"
       then "Verify with banks - may indicate system glitches or deliberate duplication"
       else if String.eqb (category f) "High Velocity"
       then "Institute transaction rate limiting and require multi-factor authentication"
       else "Investigate: " ++ description f)
    findings.

(** The body of [detectFinancialFraud] once the five sub-analyses have
    returned: findings are pushed and [riskScore] is raised in the order of
    the source, then capped by [Math.min(riskScore, 100)]. *)
Definition assembleFraudReport (analyzed : Z)
    (benfordAnalysis : BenfordAnalysis) (circularTransfers : list Cycle)
    (roundNumbers : RoundNumbers) (duplicates : list Duplicate)
    (velocityAnomalies : list VelocityAnomaly) : FraudResult :=
  let findings : list FraudFinding := [] in
  let riskScore := 0 in
  (* 1. Benford's law *)
  let '(findings, riskScore) :=
    if benfordAnomaly benfordAnalysis
    then (app findings
           [{| findingId := "benford-001"; severity := high;
               category := "Statistical Anomaly";
               description :=
                 "Transaction amounts violate Benford's Law - suggesting fabricated data";
               evidence :=
                 map (fun d => "Digit " ++ numberToString (digit d) ++ ": "
                               ++ deviation d ++ "% deviation")
                     (anomalousDigits benfordAnalysis);
               relatedRecords :=
                 map RelatedAmount (firstn 5 (flaggedTransactions benfordAnalysis)) |}],
          riskScore + 25)
    else (findings, riskScore) in
  (* 2. circular transfers *)
  let '(findings, riskScore) :=
    if (0 <? List.length circularTransfers)%nat
    then (app findings
           [{| findingId := "circular-001"; severity := critical;
               category := "Money Laundering";
               description :=
                 "Detected " ++ numberToString (Z.of_nat (List.length circularTransfers))
                 ++ " circular transfer chains - possible money laundering";
               evidence :=
                 map (fun c => "Chain: " ++ String.concat " â†’ " (accounts c))
                     circularTransfers;
               relatedRecords := map RelatedCycle circularTransfers |}],
          riskScore + 35)
    else (findings, riskScore) in
  (* 3. round numbers *)
  let '(findings, riskScore) :=
    if PrimFloat.ltb 30 (percentage roundNumbers)
    then (app findings
           [{| findingId := "round-001"; severity := medium;
               category := "Anomalous Pattern";
               description :=
                 toFixed (percentage roundNumbers) 1
                 ++ "% of transactions are round numbers - unusually high";
               evidence :=
                 ["Found " ++ numberToString (roundCount roundNumbers)
                  ++ " round-number transactions"];
               relatedRecords :=
                 map RelatedTransaction (firstn 10 (roundTransactions roundNumbers)) |}],
          riskScore + 15)
    else (findings, riskScore) in
  (* 4. duplicates *)
  let '(findings, riskScore) :=
    if (0 <? List.length duplicates)%nat
    then (app findings
           [{| findingId := "dup-001"; severity := high;
               category := "Duplicate Transactions";
               description :=
                 "Found " ++ numberToString (Z.of_nat (List.length duplicates))
                 ++ " duplicate or near-duplicate transactions";
               evidence :=
                 map (fun d => "Amount: " ++ numberToString (amount (duplicated d))
                               ++ ", Time: " ++ numberToString (timeDifference d)
                               ++ "s apart")
                     duplicates;
               relatedRecords := map RelatedDuplicate duplicates |}],
          riskScore + 20)
    else (findings, riskScore) in
  (* 5. velocity *)
  let '(findings, riskScore) :=
    if (0 <? List.length velocityAnomalies)%nat
    then (app findings
           [{| findingId := "velocity-001"; severity := medium;
               category := "High Velocity";
               description :=
                 numberToString (Z.of_nat (List.length velocityAnomalies))
                 ++ " accounts show unusually high transaction velocity";
               evidence :=
                 map (fun v => account v ++ ": " ++ numberToString (count v)
                               ++ " transactions in " ++ numberToString (timeWindow v)
                               ++ "min")
                     velocityAnomalies;
               relatedRecords := map RelatedVelocity velocityAnomalies |}],
          riskScore + 10)
    else (findings, riskScore) in
  {| type := fraud;
     riskScore := Z.min riskScore 100;
     findings := findings;
     recommendations := generateFraudRecommendations findings;
     metadata := {| analyzedRecords := analyzed;
                    suspiciousPatterns := Z.of_nat (List.length findings) |} |}.

Definition detectFinancialFraud (transactions : list Transaction) : FraudResult :=
  assembleFraudReport (Z.of_nat (List.length transactions))
    (analyzeBenford transactions)
    (detectCircularTransfers transactions)
    (detectRoundNumbers transactions)
    (detectDuplicates transactions)
    (detectVelocityAnomalies transactions).

End Engine.

End FraudDetectionEngine.

(** ** TimelineEngine *)

Module TimelineEngine.
Import Analytics.

(** An event: its [timestamp] in milliseconds and the rest of the object. *)
Record Event := {
  timestamp : Z;
  payload : string
}.

Record Cluster := {
  events : list Event;
  duration : Z;
  startTime : Z;
  endTime : Z
}.

(** [[...events].sort((a, b) => (a.timestamp || 0) - (b.timestamp || 0))]:
    a stable sort, ascending in [timestamp]. *)
Fixpoint insertEvent (e : Event) (sorted : list Event) : list Event :=
  match sorted with
  | [] => [e]
  | x :: rest =>
      if timestamp e <=? timestamp x then e :: sorted
      else x :: insertEvent e rest
  end.

Definition sortEvents (events : list Event) : list Event :=
  fold_right insertEvent [] events.

Definition firstTimestamp (cluster : list Event) : Z :=
  match cluster with
  | e :: _ => timestamp e
  | [] => 0
  end.

Definition lastTimestamp (cluster : list Event) : Z :=
  match rev cluster with
  | e :: _ => timestamp e
  | [] => 0
  end.

(** The object pushed on [clusters] when [currentCluster] is closed. *)
Definition closeCluster (currentCluster : list Event) : Cluster :=
  {| events := currentCluster;
     duration := lastTimestamp currentCluster - firstTimestamp currentCluster;
     startTime := firstTimestamp currentCluster;
     endTime := lastTimestamp currentCluster |}.

Definition timeThreshold : Z := 60000.

(** The [for] loop of [identifyEventClusters]: [previous] is [events[i-1]],
    [remaining] is [events[i..]].  When the loop ends, [clusters] is
    returned as it is. *)
Fixpoint clusterLoop (previous : Event) (remaining : list Event)
    (currentCluster : list Event) (clusters : list Cluster) : list Cluster :=
  match remaining with
  | [] => clusters
  | e :: rest =>
      let timeDiff := timestamp e - timestamp previous in
      if timeDiff <? timeThreshold
      then clusterLoop e rest (currentCluster ++ [e]) clusters
      else clusterLoop e rest [e] (clusters ++ [closeCluster currentCluster])
  end.

Definition identifyEventClusters (events : list Event) : list Cluster :=
  match events with
  | [] => []
  | first :: rest => clusterLoop first rest [first] []
  end.

Record TemporalAnomaly := {
  anomalousEvent : Event;
  anomalyType : string;
  anomalyDescription : string
}.

Inductive TimelineRelated :=
| RelatedCluster (c : Cluster)
| RelatedAnomaly (a : TemporalAnomaly).

Record TimelineMetadata := {
  eventCount : Z;
  timeSpan : float;
  clusters : Z
}.

Definition TimelineResult := AnalyticsResult TimelineRelated TimelineMetadata.

Section Engine.

(** [new Date(ms).getHours()]: the local hour of a timestamp. *)
Variable getHours : Z -> Z.

Definition detectTemporalAnomalies (events : list Event) : list TemporalAnomaly :=
  let anomalies :=
    flat_map
      (fun event =>
         let hour := getHours (timestamp event) in
         if (hour <? 6) || (22 <? hour)
         then [{| anomalousEvent := event; anomalyType := "off_hours";
                  anomalyDescription :=
                    "Event at " ++ numberToString hour
                    ++ ":00 - outside standard business hours" |}]
         else [])
      events in
  firstn 10 anomalies.

Definition buildTimeline (events : list Event) : TimelineResult :=
  let sortedEvents := sortEvents events in
  let findings : list (Finding TimelineRelated) := [] in
  let riskScore := 0 in
  (* 1. event clusters *)
  let found := identifyEventClusters sortedEvents in
  let '(findings, riskScore) :=
    if (5 <? List.length found)%nat
    then (app findings
           [{| findingId := "timeline-001"; severity := high;
               category := "Event Clustering";
               description :=
                 "Timeline shows " ++ numberToString (Z.of_nat (List.length found))
                 ++ " distinct event clusters indicative of coordinated activity";
               evidence :=
                 map (fun c => "Cluster: "
                               ++ numberToString (Z.of_nat (List.length (TimelineEngine.events c)))
                               ++ " events in " ++ numberToString (duration c) ++ "ms")
                     found;
               relatedRecords := map RelatedCluster found |}],
          riskScore + 20)
    else (findings, riskScore) in
  (* 2. temporal anomalies *)
  let temporalAnomalies := detectTemporalAnomalies sortedEvents in
  let '(findings, riskScore) :=
    if (0 <? List.length temporalAnomalies)%nat
    then (app findings
           [{| findingId := "timeline-002"; severity := medium;
               category := "Temporal Anomaly";
               description :=
                 "Found " ++ numberToString (Z.of_nat (List.length temporalAnomalies))
                 ++ " events with unusual timing patterns";
               evidence := map anomalyDescription temporalAnomalies;
               relatedRecords := map RelatedAnomaly temporalAnomalies |}],
          riskScore + 15)
    else (findings, riskScore) in
  {| type := timeline;
     riskScore := riskScore;
     findings := findings;
     recommendations :=
       ["Review complete timeline with stakeholders";
        "Cross-reference with system logs and CCTV footage";
        "Interview personnel present during key events"];
     metadata :=
       {| eventCount := Z.of_nat (List.length sortedEvents);
          timeSpan :=
            if (1 <? List.length sortedEvents)%nat
            then (toNumber (lastTimestamp sortedEvents - firstTimestamp sortedEvents)
                  / 1000)%float
            else 0%float;
          clusters := Z.of_nat (List.length found) |} |}.

End Engine.

End TimelineEngine.

(** * Properties *)

(** ** Association lists as JavaScript maps *)

Section JsMapFacts.

Context {V : Type}.

Lemma map_get_set_same (k : string) (v : V) (m : JsMap V) :
  map_get k (map_set k v m) = Some v.
Proof.
  induction m as [|[k' v'] rest IH]; simpl.
  - now rewrite String.eqb_refl.
  - destruct (String.eqb k' k) eqn:E; simpl; rewrite E; auto.
Qed.

Lemma map_get_set_other (k k' : string) (v : V) (m : JsMap V) :
  k <> k' -> map_get k' (map_set k v m) = map_get k' m.
Proof.
  intros Hne. induction m as [|[k0 v0] rest IH]; simpl.
  - destruct (String.eqb k k') eqn:E; auto.
    apply String.eqb_eq in E. contradiction.
  - destruct (String.eqb k0 k) eqn:E; simpl.
    + apply String.eqb_eq in E. subst k0.
      destruct (String.eqb k k') eqn:E'; auto.
      apply String.eqb_eq in E'. contradiction.
    + now rewrite IH.
Qed.

Lemma map_get_update_same (k : string) (f : V -> V) (m : JsMap V) :
  map_get k (map_update k f m) = option_map f (map_get k m).
Proof.
  induction m as [|[k' v'] rest IH]; simpl; auto.
  destruct (String.eqb k' k) eqn:E; simpl; rewrite E; auto.
Qed.

Lemma map_get_update_other (k k' : string) (f : V -> V) (m : JsMap V) :
  k <> k' -> map_get k' (map_update k f m) = map_get k' m.
Proof.
  intros Hne. induction m as [|[k0 v0] rest IH]; simpl; auto.
  destruct (String.eqb k0 k) eqn:E; simpl.
  - apply String.eqb_eq in E. subst k0.
    destruct (String.eqb k k') eqn:E'; auto.
    apply String.eqb_eq in E'. contradiction.
  - now rewrite IH.
Qed.

Lemma map_update_keys (k : string) (f : V -> V) (m : JsMap V) :
  map fst (map_update k f m) = map fst m.
Proof.
  induction m as [|[k' v'] rest IH]; simpl; auto.
  destruct (String.eqb k' k); simpl; congruence.
Qed.

Lemma map_get_None_keys (k : string) (m : JsMap V) :
  map_get k m = None -> ~ In k (map fst m).
Proof.
  induction m as [|[k' v'] rest IH]; simpl; auto.
  destruct (String.eqb k' k) eqn:E; [discriminate|].
  apply String.eqb_neq in E. intros H [Hk | Hk]; auto. now apply IH.
Qed.

Lemma map_set_absent (k : string) (v : V) (m : JsMap V) :
  map_get k m = None -> map_set k v m = (m ++ [(k, v)])%list.
Proof.
  induction m as [|[k' v'] rest IH]; simpl; auto.
  destruct (String.eqb k' k); [discriminate|].
  intros H. now rewrite IH.
Qed.

Lemma map_get_In (k : string) (v : V) (m : JsMap V) :
  map_get k m = Some v -> In (k, v) m.
Proof.
  induction m as [|[k' v'] rest IH]; simpl; [discriminate|].
  destruct (String.eqb k' k) eqn:E.
  - apply String.eqb_eq in E. subst k'. intros H. inversion H. now left.
  - intros H. right. now apply IH.
Qed.

Lemma In_map_get (k : string) (v : V) (m : JsMap V) :
  NoDup (map fst m) -> In (k, v) m -> map_get k m = Some v.
Proof.
  induction m as [|[k' v'] rest IH]; simpl; [contradiction|].
  intros Hnd [Heq | Hin].
  - inversion Heq; subst. now rewrite String.eqb_refl.
  - inversion Hnd as [|? ? Hnotin Hnd']; subst.
    destruct (String.eqb k' k) eqn:E.
    + apply String.eqb_eq in E. subst k'. exfalso. apply Hnotin.
      change k with (fst (k, v)). now apply in_map.
    + now apply IH.
Qed.

End JsMapFacts.


(** ** The evidence vault *)

Section VaultProperties.

Import EvidenceVault.

Variable P : Platform.

(** The entry [verifyIntegrity] pushes when it runs in state [s] on the
    record [ev]. *)
Definition verifiedEntry (s : VaultState) (ev : VaultEvidence) (who : string)
  : ChainEntry :=
  {| entryTimestamp := dateNow P (clockReads s); action := verified;
     investigator := who; hash := Some (fileHash ev);
     notes := Some "Integrity verified - no tampering detected" |}.

(** The entries pushed by [accessEvidence] and [exportEvidence]. *)
Definition accessedEntry (s : VaultState) (who purpose : string) : ChainEntry :=
  {| entryTimestamp := dateNow P (clockReads s); action := accessed;
     investigator := who; hash := None;
     notes := Some ("Accessed for: " ++ purpose) |}.

Definition exportedEntry (s : VaultState) (who : string) (fmt : ExportFormat)
  : ChainEntry :=
  {| entryTimestamp := dateNow P (clockReads s); action := exported;
     investigator := who; hash := None;
     notes := Some ("Exported in " ++ formatName fmt ++ " format") |}.

(** What a call of [verifyIntegrity] on a known id does, in full. *)
Lemma verifyIntegrity_known (s : VaultState) (i who : string) (ev : VaultEvidence) :
  map_get i (evidenceRegistry s) = Some ev ->
  verifyIntegrity P i who s =
  (Normal {| valid := true;
             message := "Evidence integrity verified - no tampering detected";
             originalHash := fileHash ev;
             currentHash := encryptedHash ev |},
   {| evidenceRegistry :=
        map_update i (setIntegrityVerified true)
          (map_update i (pushChainEntry (verifiedEntry s ev who)) (evidenceRegistry s));
      clockReads := S (clockReads s);
      randomDraws := randomDraws s; ivDraws := ivDraws s; console := console s |}).
Proof.
  intros Hget. unfold verifyIntegrity, bind, registryGet, tryCatch. simpl.
  rewrite Hget. reflexivity.
Qed.

Lemma verifyIntegrity_unknown (s : VaultState) (i who : string) :
  map_get i (evidenceRegistry s) = None ->
  verifyIntegrity P i who s = (Throw ("Evidence not found: " ++ i), s).
Proof.
  intros Hget. unfold verifyIntegrity, bind, registryGet. simpl.
  rewrite Hget. reflexivity.
Qed.

(** After a call on a known id the record has one more entry, is marked
    verified, and keeps its status and hashes. *)
Lemma verifyIntegrity_record (s : VaultState) (i who : string) (ev : VaultEvidence) :
  map_get i (evidenceRegistry s) = Some ev ->
  map_get i (evidenceRegistry (snd (verifyIntegrity P i who s)))
  = Some (setIntegrityVerified true (pushChainEntry (verifiedEntry s ev who) ev)).
Proof.
  intros Hget. rewrite (verifyIntegrity_known s i who ev Hget). simpl.
  rewrite !map_get_update_same, Hget. reflexivity.
Qed.

(** A successful [archiveEvidence] stores the record it returns under the
    record's id; the record has the single entry [created], stamped with
    the first clock reading of the call. *)
Lemma archiveEvidence_stored (s s1 : VaultState) (c f : string) (data : list byte)
    (md : EvidenceMetadata) (tg : list string) (ev : VaultEvidence) :
  archiveEvidence P c f data md tg s = (Normal ev, s1) ->
  map_get (id ev) (evidenceRegistry s1) = Some ev
  /\ clockReads s1 = (clockReads s + 4)%nat
  /\ exists e0, chainOfCustody ev = [e0]
                /\ action e0 = created
                /\ entryTimestamp e0 = dateNow P (clockReads s)
                /\ hash e0 = Some (fileHash ev)
                /\ status ev = status_archived
                /\ integrityVerified ev = true.
Proof.
  cbv beta iota delta [archiveEvidence tryCatch bind calculateHash encryptData
    liftCompletion GetRandomValues DateNow generateEvidenceId
    MathRandomSuffix registrySet logAuditEvent consoleLog ret throw].
  destruct (subtleDigest P data) as [h1|m1]; simpl; [|discriminate].
  destruct (subtleEncrypt P (getRandomValues P (ivDraws s)) generateEncryptionKey data)
    as [enc|m2]; simpl; [|discriminate].
  destruct (subtleDigest P enc) as [h2|m3]; simpl; [|discriminate].
  intros H. inversion H; subst; clear H. simpl.
  rewrite map_get_set_same. split; [reflexivity|]. split; [lia|].
  eexists. repeat split.
Qed.

(** *** Custody chains under the three custody operations *)














(** *** Verification and custody of a stored record *)

(** When [archiveEvidence] returns a record (which takes a cipher that
    accepts the object [generateEncryptionKey] hands it),
    [verifyIntegrity] called next on the id of that record returns an
    outcome with [valid = true]. *)
Lemma archive_then_verify_valid (s s1 : VaultState) (c f : string)
    (data : list byte) (md : EvidenceMetadata) (tg : list string)
    (ev : VaultEvidence) (who : string) :
  archiveEvidence P c f data md tg s = (Normal ev, s1) ->
  exists outcome s2,
    verifyIntegrity P (id ev) who s1 = (Normal outcome, s2)
    /\ valid outcome = true.
Proof.
  intros Harchive.
  destruct (archiveEvidence_stored _ _ _ _ _ _ _ _ Harchive) as (Hget & _).
  rewrite (verifyIntegrity_known s1 (id ev) who ev Hget).
  eexists. eexists. split; reflexivity.
Qed.

Lemma verifyIntegrity_repeated (i : string) (whos : list string) :
  forall (s : VaultState) (ev : VaultEvidence),
    map_get i (evidenceRegistry s) = Some ev ->
    exists added,
      custodyOf i (runOps P (map (OpVerify i) whos) s)
      = Some (chainOfCustody ev ++ added)%list
      /\ List.length added = List.length whos
      /\ Forall (fun e => action e = verified /\ hash e = Some (fileHash ev)) added.
Proof.
  induction whos as [|who whos IH]; intros s ev Hget.
  - exists []. unfold custodyOf. simpl. rewrite Hget, app_nil_r. auto.
  - pose proof (verifyIntegrity_record s i who ev Hget) as Hrec.
    destruct (IH _ _ Hrec) as (added & Hc & Hlen & Hall).
    exists (verifiedEntry s ev who :: added).
    unfold runOps in *. simpl in *. rewrite Hc, <- app_assoc. simpl.
    repeat split; auto.
Qed.

(** Every call of [verifyIntegrity] on a known id returns a valid outcome
    and pushes exactly one entry on the record's chain: a [verified] entry
    by the caller, stamped with the clock, whose hash snapshot is a copy of
    the stored [fileHash] (the outcome's [originalHash]).  Hence n calls
    in a row lengthen the chain by exactly n such entries. *)
Lemma verifyIntegrity_appends_one_verified_entry (s : VaultState) (i : string)
    (ev : VaultEvidence) :
  map_get i (evidenceRegistry s) = Some ev ->
  (forall who, exists outcome s' e,
      verifyIntegrity P i who s = (Normal outcome, s')
      /\ valid outcome = true
      /\ originalHash outcome = fileHash ev
      /\ custodyOf i s' = Some (chainOfCustody ev ++ [e])%list
      /\ action e = verified
      /\ investigator e = who
      /\ entryTimestamp e = dateNow P (clockReads s)
      /\ hash e = Some (fileHash ev))
  /\ (forall whos : list string, exists added,
      custodyOf i (runOps P (map (OpVerify i) whos) s)
      = Some (chainOfCustody ev ++ added)%list
      /\ List.length added = List.length whos
      /\ Forall (fun e => action e = verified /\ hash e = Some (fileHash ev)) added).
Proof.
  intros Hget. split.
  - intros who. pose proof (verifyIntegrity_record s i who ev Hget) as Hrec.
    rewrite (verifyIntegrity_known s i who ev Hget) in *.
    do 2 eexists. exists (verifiedEntry s ev who).
    split; [reflexivity|]. unfold custodyOf. simpl in Hrec. simpl.
    rewrite Hrec. simpl. repeat split.
  - intros whos. now apply verifyIntegrity_repeated.
Qed.


Lemma filter_none {A} (f : A -> bool) (l : list A) :
  (forall x, In x l -> f x = false) -> filter f l = [].
Proof.
  induction l as [|x l IH]; intros H; simpl; auto.
  rewrite (H x (or_introl eq_refl)). apply IH. intros y Hy. apply H. now right.
Qed.

(** C10. For a case id that no record of the registry carries,
    [getCaseSummary] reports no evidence, size 0 and the status
    [all_verified]: `every record is verified' holds of the empty list. *)
Theorem getCaseSummary_no_evidence (s : VaultState) (wanted : string) :
  (forall e, In e (map_values (evidenceRegistry s)) -> caseId e <> wanted) ->
  totalEvidence (getCaseSummary wanted s) = 0
  /\ totalSize (getCaseSummary wanted s) = 0
  /\ integrityStatus (getCaseSummary wanted s) = all_verified
  /\ evidenceList (getCaseSummary wanted s) = [].
Proof.
  intros Hnone. unfold getCaseSummary.
  rewrite (filter_none (fun e => String.eqb (caseId e) wanted)).
  - simpl. auto.
  - intros e He. apply String.eqb_neq. now apply Hnone.
Qed.

End VaultProperties.

(** *** A concrete platform, and the vault run on it *)

Module VaultExample.
Import EvidenceVault.

(** A toy digest (sum and count of the bytes) and a toy cipher (the IV
    followed by the reversed plaintext) stand for SHA-256 and AES-GCM. *)
Definition toyDigest (data : list byte) : list byte :=
  let total := fold_left (fun acc b => (acc + Byte.to_N b)%N) data 0%N in
  match Byte.of_N (N.modulo total 256), Byte.of_N (N.modulo (N.of_nat (List.length data)) 256) with
  | Some a, Some b => [a; b]
  | _, _ => []
  end.

Definition platform : Platform :=
  {| dateNow := fun k => 1700000000000 + 250 * Z.of_nat k;
     mathRandomSuffix := fun k => "k" ++ numberToString (Z.of_nat k);
     getRandomValues := fun k => repeat "7"%byte 12;
     subtleDigest := fun data => Normal (toyDigest data);
     subtleEncrypt := fun iv _ data => Normal (iv ++ rev data)%list;
     jsonEncode := fun p => [] |}.

Definition exportBytes : list byte := ["S"; "Q"; "L"]%byte.

Definition sourceMetadata : EvidenceMetadata :=
  {| source := "MySQL Database"; database := Some "production_db";
     table := Some "transactions"; recordCount := Some 50000;
     lastModified := None |}.

(** [archiveEvidence("case-7", "dump.sql", bytes, metadata, ["fraud"])] on an
    empty vault. *)
Definition archived : Completion VaultEvidence * VaultState :=
  Eval vm_compute in
    archiveEvidence platform "case-7" "dump.sql" exportBytes sourceMetadata
      ["fraud"] emptyVault.

Definition record : VaultEvidence :=
  match fst archived with
  | Normal ev => ev
  | Throw _ =>
      {| id := ""; caseId := ""; fileName := ""; fileHash := "";
         encryptedHash := ""; timestamp := 0; size := 0; category := "";
         tags := []; metadata := sourceMetadata; chainOfCustody := [];
         status := status_processing; integrityVerified := false;
         encryptionKey := None |}
  end.

Definition vault : VaultState := snd archived.

End VaultExample.

(** The archival of the example succeeds and returns [record]. *)
Lemma example_archive :
  EvidenceVault.archiveEvidence VaultExample.platform "case-7" "dump.sql"
    VaultExample.exportBytes VaultExample.sourceMetadata ["fraud"]
    EvidenceVault.emptyVault
  = (Normal VaultExample.record, VaultExample.vault).
Proof. vm_compute. reflexivity. Qed.

Section VaultExamples.

Import EvidenceVault.
Import VaultExample.

(** On the example platform, whose toy cipher takes any key, the archived
    record verifies as valid. *)
Lemma archive_then_verify_valid_witness :
  archiveEvidence platform "case-7" "dump.sql" exportBytes sourceMetadata
    ["fraud"] emptyVault = (Normal record, vault)
  /\ exists outcome s2,
       verifyIntegrity platform (id record) "analyst" vault = (Normal outcome, s2)
       /\ valid outcome = true.
Proof.
  split.
  - vm_compute. reflexivity.
  - apply (archive_then_verify_valid platform emptyVault vault "case-7" "dump.sql"
             exportBytes sourceMetadata ["fraud"] record "analyst").
    vm_compute. reflexivity.
Defined.


(** On the example: three checks add three entries. *)
Lemma verifyIntegrity_appends_one_verified_entry_witness :
  map_get (id record) (evidenceRegistry vault) = Some record
  /\ exists added,
       custodyOf (id record)
         (runOps platform (map (OpVerify (id record)) ["ann"; "bob"; "ann"]) vault)
       = Some (chainOfCustody record ++ added)%list
       /\ List.length added = 3%nat.
Proof.
  split.
  - vm_compute. reflexivity.
  - destruct (verifyIntegrity_appends_one_verified_entry platform vault (id record) record)
      as [_ Hmany].
    + vm_compute. reflexivity.
    + destruct (Hmany ["ann"; "bob"; "ann"]) as (added & Hc & Hlen & _).
      exists added. split; [exact Hc | exact Hlen].
Defined.

(** C10 on the example vault, which holds no record of case-9. *)
Lemma getCaseSummary_no_evidence_witness :
  (forall e, In e (map_values (evidenceRegistry vault)) -> caseId e <> "case-9")
  /\ totalEvidence (getCaseSummary "case-9" vault) = 0
  /\ totalSize (getCaseSummary "case-9" vault) = 0
  /\ integrityStatus (getCaseSummary "case-9" vault) = all_verified
  /\ evidenceList (getCaseSummary "case-9" vault) = [].
Proof.
  assert (H : forall e, In e (map_values (evidenceRegistry vault)) ->
                        caseId e <> "case-9").
  { intros e [He | []]. subst e. simpl. discriminate. }
  split; [exact H|].
  exact (getCaseSummary_no_evidence vault "case-9" H).
Defined.

End VaultExamples.

(** ** The fraud detection engine *)

Section FraudProperties.

Import Analytics.
Import FraudDetectionEngine.

Variable toFixed : float -> Z -> string.

(** The sum [riskScore] has reached before it is capped. *)
Definition firedContributions (benfordAnalysis : BenfordAnalysis)
    (circularTransfers : list Cycle) (roundNumbers : RoundNumbers)
    (duplicates : list Duplicate) (velocityAnomalies : list VelocityAnomaly) : Z :=
  (if benfordAnomaly benfordAnalysis then 25 else 0)
  + (if (0 <? List.length circularTransfers)%nat then 35 else 0)
  + (if PrimFloat.ltb 30 (percentage roundNumbers) then 15 else 0)
  + (if (0 <? List.length duplicates)%nat then 20 else 0)
  + (if (0 <? List.length velocityAnomalies)%nat then 10 else 0).

Lemma assembleFraudReport_riskScore (analyzed : Z) (b : BenfordAnalysis)
    (c : list Cycle) (r : RoundNumbers) (d : list Duplicate)
    (v : list VelocityAnomaly) :
  riskScore (assembleFraudReport toFixed analyzed b c r d v)
  = Z.min (firedContributions b c r d v) 100.
Proof.
  unfold assembleFraudReport, firedContributions.
  destruct (benfordAnomaly b), (0 <? List.length c)%nat,
    (PrimFloat.ltb 30 (percentage r)), (0 <? List.length d)%nat,
    (0 <? List.length v)%nat; reflexivity.
Qed.

Lemma firedContributions_range (b : BenfordAnalysis) (c : list Cycle)
    (r : RoundNumbers) (d : list Duplicate) (v : list VelocityAnomaly) :
  0 <= firedContributions b c r d v <= 105.
Proof.
  unfold firedContributions.
  destruct (benfordAnomaly b), (0 <? List.length c)%nat,
    (PrimFloat.ltb 30 (percentage r)), (0 <? List.length d)%nat,
    (0 <? List.length v)%nat; lia.
Qed.

(** C5. The [riskScore] that [detectFinancialFraud] returns lies in
    [0, 100] for every list of transactions; so does the score assembled
    from any five sub-analysis results, and when all five fire (the sum
    25+35+15+20+10 = 105) the reported score is exactly 100. *)
Theorem fraud_riskScore_clamped :
  (forall transactions,
      0 <= riskScore (detectFinancialFraud toFixed transactions) <= 100)
  /\ (forall analyzed b c r d v,
      0 <= riskScore (assembleFraudReport toFixed analyzed b c r d v) <= 100)
  /\ (forall analyzed b c r d v,
      benfordAnomaly b = true ->
      c <> [] ->
      PrimFloat.ltb 30 (percentage r) = true ->
      d <> [] ->
      v <> [] ->
      firedContributions b c r d v = 105
      /\ riskScore (assembleFraudReport toFixed analyzed b c r d v) = 100).
Proof.
  assert (Hrange : forall analyzed b c r d v,
             0 <= riskScore (assembleFraudReport toFixed analyzed b c r d v) <= 100).
  { intros. rewrite assembleFraudReport_riskScore.
    pose proof (firedContributions_range b c r d v). lia. }
  split; [|split].
  - intros transactions. unfold detectFinancialFraud. apply Hrange.
  - exact Hrange.
  - intros analyzed b c r d v Hb Hc Hr Hd Hv.
    assert (Hsum : firedContributions b c r d v = 105).
    { unfold firedContributions. rewrite Hb, Hr.
      destruct c; [contradiction|]. destruct d; [contradiction|].
      destruct v; [contradiction|]. reflexivity. }
    split; [exact Hsum|].
    rewrite assembleFraudReport_riskScore, Hsum. reflexivity.
Qed.

(** *** Circular transfers *)

Definition transfer (sender receiver : string) (value time : Z) : Transaction :=
  {| from := sender; to := receiver; amount := value; timestamp := time |}.

(** A -> B, B -> C, C -> A. *)
Definition triangle : list Transaction :=
  [transfer "A" "B" 483 10; transfer "B" "C" 483 20; transfer "C" "A" 483 30].

(** C7, on the code.  [detectCircularTransfers] returns its empty [cycles]
    array for every input.  On the triangle A -> B -> C -> A it reports no
    cycle; the only finding of the report is the Benford one, and the
    score is its 25 points, without the 35 points of a cycle. *)
Theorem detectCircularTransfers_reports_nothing :
  (forall transactions, detectCircularTransfers transactions = [])
  /\ detectCircularTransfers triangle = []
  /\ map findingId (findings (detectFinancialFraud toFixed triangle))
     = ["benford-001"]
  /\ riskScore (detectFinancialFraud toFixed triangle) = 25.
Proof.
  split; [reflexivity|]. split; [reflexivity|]. split.
  - vm_compute. reflexivity.
  - vm_compute. reflexivity.
Qed.

(** *** Duplicates *)

(** The first transaction of [l] that has the key [k], with its index;
    [idx] is the index of the head of [l]. *)
Fixpoint firstWithKey (k : string) (l : list Transaction) (idx : nat)
  : option (Transaction * nat) :=
  match l with
  | [] => None
  | t :: rest =>
      if String.eqb (duplicateKey t) k then Some (t, idx)
      else firstWithKey k rest (S idx)
  end.

(** What is reported for the transaction [t] at index [j] of [all]: [t] is
    reported, against the first transaction of its key, when it is not
    that first one and their timestamps are less than 300 apart. *)
Definition reportedAgainstFirst (all : list Transaction) (j : nat) (t : Transaction)
  : list Duplicate :=
  match firstWithKey (duplicateKey t) all 0 with
  | Some (first, i) =>
      if (i <? j)%nat && (Z.abs (timestamp t - timestamp first) <? 300)
      then [{| duplicated := t;
               timeDifference := Z.abs (timestamp t - timestamp first);
               duplicateOf := i |}]
      else []
  | None => []
  end.

Fixpoint reportsFrom (all : list Transaction) (j : nat) (l : list Transaction)
  : list Duplicate :=
  match l with
  | [] => []
  | t :: rest => (reportedAgainstFirst all j t ++ reportsFrom all (S j) rest)%list
  end.

Lemma firstWithKey_app (k : string) (pre rest : list Transaction) (n : nat) :
  firstWithKey k (pre ++ rest) n
  = match firstWithKey k pre n with
    | Some x => Some x
    | None => firstWithKey k rest (n + List.length pre)
    end.
Proof.
  revert n. induction pre as [|t pre IH]; intros n; simpl.
  - now rewrite Nat.add_0_r.
  - destruct (String.eqb (duplicateKey t) k); auto.
    rewrite IH. now rewrite Nat.add_succ_r.
Qed.

Lemma firstWithKey_index (k : string) (l : list Transaction) (n i : nat)
    (t : Transaction) :
  firstWithKey k l n = Some (t, i) -> (n <= i < n + List.length l)%nat.
Proof.
  revert n. induction l as [|x l IH]; intros n; simpl; [discriminate|].
  destruct (String.eqb (duplicateKey x) k).
  - intros H. inversion H; subst. lia.
  - intros H. apply IH in H. lia.
Qed.

(** The loop invariant: [seen] holds, for every key, the first transaction
    of the part already visited. *)
Lemma duplicatesLoop_spec (pre rest : list Transaction)
    (seen : JsMap (Transaction * nat)) (duplicates : list Duplicate) :
  (forall k, map_get k seen = firstWithKey k pre 0) ->
  duplicatesLoop rest (List.length pre) seen duplicates
  = (duplicates ++ reportsFrom (pre ++ rest) (List.length pre) rest)%list.
Proof.
  revert pre seen duplicates.
  induction rest as [|t rest IH]; intros pre seen duplicates Hseen; simpl.
  - now rewrite app_nil_r.
  - assert (Hlen : S (List.length pre) = List.length (pre ++ [t])).
    { rewrite length_app. simpl. lia. }
    assert (Hall : (pre ++ t :: rest = (pre ++ [t]) ++ rest)%list).
    { now rewrite <- app_assoc. }
    unfold reportedAgainstFirst.
    rewrite firstWithKey_app, <- Hseen. simpl.
    rewrite String.eqb_refl.
    destruct (map_get (duplicateKey t) seen) as [[prev prevId]|] eqn:Hget.
    + assert (Hlt : (prevId <? List.length pre)%nat = true).
      { rewrite Hseen in Hget. apply firstWithKey_index in Hget.
        apply Nat.ltb_lt. lia. }
      rewrite Hlt. simpl.
      assert (Hseen' : forall k, map_get k seen = firstWithKey k (pre ++ [t]) 0).
      { intros k. rewrite firstWithKey_app, <- Hseen. simpl.
        destruct (map_get k seen) eqn:Hk; auto.
        destruct (String.eqb (duplicateKey t) k) eqn:E; auto.
        apply String.eqb_eq in E. subst k. congruence. }
      destruct (Z.abs (timestamp t - timestamp prev) <? 300).
      * rewrite Hlen, Hall. rewrite (IH (pre ++ [t])%list seen _ Hseen').
        now rewrite <- app_assoc.
      * rewrite Hlen, Hall. now rewrite (IH (pre ++ [t])%list seen _ Hseen').
    + rewrite Nat.ltb_irrefl. simpl.
      rewrite Hlen, Hall. apply IH.
      intros k. rewrite firstWithKey_app, <- Hseen. simpl.
      destruct (String.eqb (duplicateKey t) k) eqn:E.
      * apply String.eqb_eq in E. subst k. rewrite map_get_set_same, Hget.
        reflexivity.
      * apply String.eqb_neq in E. rewrite map_get_set_other by exact E.
        now destruct (map_get k seen).
Qed.

(** Two transactions are in one group of the specification when they agree
    on [from], [to] and [amount]. *)
Definition sameGroup (a b : Transaction) : Prop :=
  from a = from b /\ to a = to b /\ amount a = amount b.

Lemma sameGroup_same_key (a b : Transaction) :
  sameGroup a b -> duplicateKey a = duplicateKey b.
Proof. intros (H1 & H2 & H3). unfold duplicateKey. now rewrite H1, H2, H3. Qed.

(** C8 as the specification words it: every pair of one group whose
    timestamps are less than 300 apart is reported (read weakly: the later
    transaction of the pair occurs in the output). *)
Definition everyClosePairReported (transactions : list Transaction) : Prop :=
  forall i j a b,
    (i < j)%nat ->
    nth_error transactions i = Some a ->
    nth_error transactions j = Some b ->
    sameGroup a b ->
    Z.abs (timestamp b - timestamp a) < 300 ->
    exists d, In d (detectDuplicates transactions) /\ duplicated d = b.

(** X -> Y, 100, at t = 0, 400 and 500: the last two are 100 apart. *)
Definition lateTwins : list Transaction :=
  [transfer "X" "Y" 100 0; transfer "X" "Y" 100 400; transfer "X" "Y" 100 500].

(** The second and third transaction are 100 apart and nothing is
    reported: each is compared with the first one only, 400 and 500 away. *)
Lemma close_pair_after_the_first_is_not_reported :
  detectDuplicates lateTwins = [] /\ ~ everyClosePairReported lateTwins.
Proof.
  split; [reflexivity|].
  intros H.
  assert (Hpair : exists d, In d (detectDuplicates lateTwins)
                            /\ duplicated d = transfer "X" "Y" 100 500).
  { apply (H 1%nat 2%nat (transfer "X" "Y" 100 400)).
    - lia.
    - reflexivity.
    - reflexivity.
    - repeat split.
    - simpl. lia. }
  destruct Hpair as (d & Hin & _). exact Hin.
Qed.

(** C8, as the code has it.  Transactions are grouped by the key
    [from-to-amount]; each transaction is compared with the first
    transaction of its key only, and is reported (once, as a duplicate of
    that first one) exactly when it is a later one whose timestamp is
    less than 300 away from the first one's.  Transactions that agree on
    [from], [to] and [amount] have the same key.  The two transactions
    X -> Y, 100 at t = 0 and t = 120 give one report; at t = 0 and t = 400
    they give none. *)
Theorem detectDuplicates_compares_with_first_of_group :
  (forall transactions,
      detectDuplicates transactions = reportsFrom transactions 0 transactions)
  /\ (forall a b, sameGroup a b -> duplicateKey a = duplicateKey b)
  /\ detectDuplicates [transfer "X" "Y" 100 0; transfer "X" "Y" 100 120]
     = [{| duplicated := transfer "X" "Y" 100 120; timeDifference := 120;
           duplicateOf := 0 |}]
  /\ detectDuplicates [transfer "X" "Y" 100 0; transfer "X" "Y" 100 400] = [].
Proof.
  split; [|split; [|split]].
  - intros transactions. unfold detectDuplicates.
    apply (duplicatesLoop_spec [] transactions [] []). reflexivity.
  - exact sameGroup_same_key.
  - reflexivity.
  - reflexivity.
Qed.

(** *** Velocity *)

(** The transactions of [l] stamped in the window [start, start + width). *)
Definition issuedWithin (width start : Z) (l : list Transaction) : list Transaction :=
  filter (fun t => (start <=? timestamp t) && (timestamp t <? start + width)) l.

(** Every transaction of [l] comes at least [width] after the ones before it. *)
Fixpoint spacedBy (width : Z) (l : list Transaction) : bool :=
  match l with
  | [] => true
  | a :: rest =>
      forallb (fun b => timestamp a + width <=? timestamp b) rest
      && spacedBy width rest
  end.

Lemma spacedBy_window (width start : Z) (l : list Transaction) :
  spacedBy width l = true ->
  (List.length (issuedWithin width start l) <= 1)%nat.
Proof.
  induction l as [|a rest IH]; simpl; [lia|].
  intros H. apply andb_true_iff in H. destruct H as [Hgap Hrest].
  specialize (IH Hrest).
  destruct ((start <=? timestamp a) && (timestamp a <? start + width)) eqn:Ha;
    [|exact IH].
  apply andb_true_iff in Ha. destruct Ha as [Ha1 Ha2].
  unfold issuedWithin. rewrite filter_none; [simpl; lia|].
  intros b Hb. rewrite forallb_forall in Hgap. specialize (Hgap b Hb).
  apply andb_false_iff. right. lia.
Qed.

(** [t] was issued by the account [a]. *)
Definition sentBy (a : string) (t : Transaction) : bool := String.eqb (from t) a.

(** [accountActivity] after the transactions [visited]: one entry per
    sender, holding the sender's transactions in order. *)
Definition groupsBySender (m : JsMap (list Transaction)) (visited : list Transaction)
  : Prop :=
  NoDup (map fst m)
  /\ forall a, map_get a m
               = if existsb (sentBy a) visited
                 then Some (filter (sentBy a) visited) else None.

Lemma NoDup_snoc {A} (l : list A) (x : A) :
  NoDup l -> ~ In x l -> NoDup (l ++ [x]).
Proof.
  induction 1 as [|y l Hy Hnd IH]; intros Hx; simpl.
  - repeat constructor. auto.
  - constructor.
    + rewrite in_app_iff. intros [H | [H | []]]; [auto | subst; apply Hx; now left].
    + apply IH. intros H. apply Hx. now right.
Qed.

Lemma existsb_false_filter {A} (f : A -> bool) (l : list A) :
  existsb f l = false -> filter f l = [].
Proof.
  induction l as [|x l IH]; simpl; auto.
  destruct (f x); simpl; [discriminate | exact IH].
Qed.

Lemma recordActivity_groups (m : JsMap (list Transaction))
    (visited : list Transaction) (t : Transaction) :
  groupsBySender m visited ->
  groupsBySender (recordActivity m t) (visited ++ [t]).
Proof.
  intros [Hnd Hget]. unfold recordActivity, map_has.
  assert (Hother : forall a, from t <> a ->
             (if existsb (sentBy a) (visited ++ [t])
              then Some (filter (sentBy a) (visited ++ [t])) else None)
             = map_get a m).
  { intros a Hne. rewrite existsb_app, filter_app. simpl. unfold sentBy at 2 4.
    apply String.eqb_neq in Hne. rewrite Hne. simpl.
    now rewrite orb_false_r, app_nil_r, Hget. }
  assert (Hself : sentBy (from t) t = true) by apply String.eqb_refl.
  destruct (map_get (from t) m) as [l|] eqn:Hl.
  - split; [now rewrite map_update_keys|].
    intros a. destruct (String.eqb (from t) a) eqn:E.
    + apply String.eqb_eq in E. subst a.
      rewrite map_get_update_same, Hl. simpl.
      rewrite Hget in Hl. rewrite existsb_app, filter_app. simpl. rewrite Hself.
      destruct (existsb (sentBy (from t)) visited); [|discriminate].
      inversion Hl. reflexivity.
    + apply String.eqb_neq in E.
      rewrite map_get_update_other by exact E. now rewrite Hother.
  - split.
    + rewrite map_update_keys, map_set_absent by exact Hl.
      rewrite map_app. simpl. apply NoDup_snoc; auto.
      now apply map_get_None_keys.
    + intros a. destruct (String.eqb (from t) a) eqn:E.
      * apply String.eqb_eq in E. subst a.
        rewrite map_get_update_same, map_get_set_same. simpl.
        rewrite Hget in Hl. rewrite existsb_app, filter_app. simpl. rewrite Hself.
        destruct (existsb (sentBy (from t)) visited) eqn:Hex; [discriminate|].
        now rewrite (existsb_false_filter _ _ Hex).
      * apply String.eqb_neq in E.
        rewrite map_get_update_other, map_get_set_other by exact E.
        now rewrite Hother.
Qed.

Lemma accountActivity_groups (transactions visited : list Transaction)
    (m : JsMap (list Transaction)) :
  groupsBySender m visited ->
  groupsBySender (fold_left recordActivity transactions m) (visited ++ transactions).
Proof.
  revert m visited. induction transactions as [|t rest IH]; intros m visited H; simpl.
  - now rewrite app_nil_r.
  - replace (visited ++ t :: rest)%list with ((visited ++ [t]) ++ rest)%list
      by now rewrite <- app_assoc.
    apply IH. now apply recordActivity_groups.
Qed.

(** What the code decides: an account is flagged exactly when it has issued
    more than 50 of the transactions, whenever they were issued. *)
Lemma velocity_flags_by_total_count (transactions : list Transaction) (a : string) :
  In a (map account (detectVelocityAnomalies toFixed transactions))
  <-> (50 < List.length (filter (sentBy a) transactions))%nat.
Proof.
  unfold detectVelocityAnomalies.
  destruct (accountActivity_groups transactions [] []) as [Hnd Hget].
  { split; [constructor | reflexivity]. }
  simpl in Hnd, Hget.
  set (m := fold_left recordActivity transactions []) in *.
  rewrite in_map_iff. split.
  - intros (v & Hacc & Hin). apply in_flat_map in Hin.
    destruct Hin as ([k l] & Hkl & Hv).
    destruct (50 <? List.length l)%nat eqn:Hlen; [|contradiction].
    destruct Hv as [Hv | []]. subst v. simpl in Hacc. subst k.
    apply (In_map_get _ _ _ Hnd) in Hkl. rewrite Hget in Hkl.
    destruct (existsb (sentBy a) transactions); [|discriminate].
    inversion Hkl; subst. now apply Nat.ltb_lt.
  - intros Hlen.
    assert (Hex : existsb (sentBy a) transactions = true).
    { destruct (existsb (sentBy a) transactions) eqn:E; auto.
      rewrite (existsb_false_filter _ _ E) in Hlen. simpl in Hlen. lia. }
    specialize (Hget a). rewrite Hex in Hget. apply map_get_In in Hget.
    apply Nat.ltb_lt in Hlen.
    eexists. split.
    2:{ apply in_flat_map. exists (a, filter (sentBy a) transactions).
        split; [exact Hget|]. cbv beta iota. rewrite Hlen. left. reflexivity. }
    reflexivity.
Qed.

(** Account A sends 51 transfers, one a day (86 400 000 ms apart). *)
Definition oneADay : list Transaction :=
  map (fun k => transfer "A" "B" 10 (Z.of_nat k * 86400000)) (seq 0 51).

(** C9, on the code.  [detectVelocityAnomalies] counts all the transactions
    of an account and never reads a timestamp: an account is flagged
    exactly when it issued more than 50 transactions in all.  Account A,
    which issues one
    transaction a day and so never more than one in any 60-minute window
    (3 600 000 ms), is flagged with [count = 51] and [timeWindow = 60]. *)
Theorem detectVelocityAnomalies_ignores_the_window :
  (forall transactions a,
      In a (map account (detectVelocityAnomalies toFixed transactions))
      <-> (50 < List.length (filter (sentBy a) transactions))%nat)
  /\ (forall start, (List.length (issuedWithin 3600000 start oneADay) <= 1)%nat)
  /\ map (fun v => (account v, count v, timeWindow v))
         (detectVelocityAnomalies toFixed oneADay)
     = [("A", 51, 60)].
Proof.
  split; [exact velocity_flags_by_total_count|]. split.
  - intros start. apply spacedBy_window. vm_compute. reflexivity.
  - vm_compute. reflexivity.
Qed.

End FraudProperties.

(** The score on five sub-analysis results that all fire. *)
Module FraudExample.
Import FraudDetectionEngine.

Definition benford : BenfordAnalysis :=
  {| benfordAnomaly := true;
     anomalousDigits :=
       [{| digit := 1; deviation := "66.78" |}; {| digit := 2; deviation := "43.18" |};
        {| digit := 8; deviation := "96.08" |}; {| digit := 9; deviation := "117.39" |}];
     flaggedTransactions := [900; 800; 950] |}.

Definition cycles : list Cycle := [{| accounts := ["A"; "B"; "C"] |}].

Definition rounds : RoundNumbers :=
  {| roundCount := 2; percentage := 40%float;
     roundTransactions :=
       [{| from := "A"; to := "B"; amount := 900; timestamp := 0 |};
        {| from := "B"; to := "C"; amount := 800; timestamp := 60 |}] |}.

Definition duplicates : list Duplicate :=
  [{| duplicated := {| from := "A"; to := "B"; amount := 900; timestamp := 120 |};
      timeDifference := 120; duplicateOf := 0 |}].

Definition velocities : list VelocityAnomaly :=
  [{| account := "A"; count := 51; timeWindow := 60; velocity := "0.85" |}].

End FraudExample.

(** C5 on five firing results: 25 + 35 + 15 + 20 + 10 is reported as 100. *)
Lemma fraud_riskScore_clamped_witness :
  Analytics.riskScore
    (FraudDetectionEngine.assembleFraudReport (fun _ _ => "0.0") 5
       FraudExample.benford FraudExample.cycles FraudExample.rounds
       FraudExample.duplicates FraudExample.velocities)
  = 100.
Proof.
  apply (proj2 (proj2 (fraud_riskScore_clamped (fun _ _ => "0.0")))).
  - reflexivity.
  - discriminate.
  - vm_compute. reflexivity.
  - discriminate.
  - discriminate.
Defined.

(** ** The timeline engine *)

Section TimelineProperties.

Import Analytics.
Import TimelineEngine.

Variable getHours : Z -> Z.

Definition eventAt (t : Z) : Event := {| timestamp := t; payload := "" |}.

(** Events at t = 0, 1000, 2000, 70000 and 71000 ms. *)
Definition fiveEvents : list Event :=
  [eventAt 0; eventAt 1000; eventAt 2000; eventAt 70000; eventAt 71000].

(** Whatever the loop is given, the cluster that is open when it ends is
    not among the clusters it returns: the returned clusters, laid end to
    end, stop short of the input by that open, non-empty cluster. *)
Lemma clusterLoop_drops_open (remaining : list Event) :
  forall (previous : Event) (current : list Event) (closed : list Cluster),
    current <> [] ->
    exists open,
      open <> []
      /\ (flat_map events (clusterLoop previous remaining current closed) ++ open
          = flat_map events closed ++ current ++ remaining)%list.
Proof.
  induction remaining as [|e rest IH]; intros previous current closed Hne; simpl.
  - exists current. split; [exact Hne|]. now rewrite app_nil_r.
  - destruct (timestamp e - timestamp previous <? timeThreshold).
    + destruct (IH e (current ++ [e])%list closed) as (open & Hopen & Heq).
      { now destruct current. }
      exists open. split; [exact Hopen|]. rewrite Heq, <- app_assoc. reflexivity.
    + destruct (IH e [e] (closed ++ [closeCluster current])%list)
        as (open & Hopen & Heq).
      { discriminate. }
      exists open. split; [exact Hopen|]. rewrite Heq, flat_map_app. simpl.
      now rewrite app_nil_r, <- app_assoc.
Qed.

(** C6, on the code.  [identifyEventClusters] pushes a cluster only when a
    gap of at least 60000 ms closes it, and returns without pushing the
    cluster that is open when the loop ends.  On the five events it returns
    the single cluster of the events at 0, 1000 and 2000; the cluster of
    the events at 70000 and 71000 is left out, and [buildTimeline] reports
    a cluster count of 1.  For every non-empty input the returned clusters
    cover a proper prefix of the events only. *)
Theorem buildTimeline_leaves_out_the_last_cluster :
  (forall evs, evs <> [] ->
     exists open,
       open <> []
       /\ (flat_map events (identifyEventClusters evs) ++ open = evs)%list)
  /\ sortEvents fiveEvents = fiveEvents
  /\ identifyEventClusters (sortEvents fiveEvents)
     = [{| events := [eventAt 0; eventAt 1000; eventAt 2000];
           duration := 2000; startTime := 0; endTime := 2000 |}]
  /\ clusters (metadata (buildTimeline getHours fiveEvents)) = 1.
Proof.
  split.
  { intros [|first rest] Hne; [contradiction|]. simpl.
    destruct (clusterLoop_drops_open rest first [first] []) as (open & Hopen & Heq).
    - discriminate.
    - exists open. split; [exact Hopen | exact Heq]. }
  split; [reflexivity|]. split; [reflexivity|].
  unfold buildTimeline.
  destruct (0 <? List.length (detectTemporalAnomalies getHours (sortEvents fiveEvents)))%nat;
    reflexivity.
Qed.

End TimelineProperties.

(** * Further properties of the code *)

(** ** The evidence vault: unknown ids, failed archival, what a call keeps *)

Section VaultBehaviour.

Import EvidenceVault.

Variable P : Platform.

(** X1. On an id that is not in the registry [verifyIntegrity] throws
    [Evidence not found], [accessEvidence] and [exportEvidence] return
    [success = false], and none of the three touches the vault: no custody
    entry, no clock reading, no audit line. *)
Theorem unknown_id_changes_nothing (s : VaultState) (i who purpose : string)
    (fmt : ExportFormat) :
  map_get i (evidenceRegistry s) = None ->
  verifyIntegrity P i who s = (Throw ("Evidence not found: " ++ i), s)
  /\ accessEvidence P i who purpose s
     = (Normal {| accessSuccess := false; accessEvidenceRecord := None;
                  accessMessage := "Evidence not found: " ++ i |}, s)
  /\ exportEvidence P i who fmt s = (Normal exportFailed, s).
Proof.
  intros Hget. split; [now apply verifyIntegrity_unknown|].
  unfold accessEvidence, exportEvidence, bind, registryGet, ret. simpl.
  rewrite Hget. split; reflexivity.
Qed.

(** X2. When [archiveEvidence] throws, the message is the cause prefixed by
    [Evidence archival failed: ], and the vault holds what it held before:
    same registry, same audit log, no clock reading.  It throws exactly
    when hashing the data, encrypting it or hashing the ciphertext
    throws. *)
Theorem archiveEvidence_failure_stores_nothing (s s1 : VaultState) (c f : string)
    (data : list byte) (md : EvidenceMetadata) (tg : list string) (message : string) :
  archiveEvidence P c f data md tg s = (Throw message, s1) ->
  evidenceRegistry s1 = evidenceRegistry s
  /\ console s1 = console s
  /\ clockReads s1 = clockReads s
  /\ exists cause,
       message = "Evidence archival failed: " ++ cause
       /\ (subtleDigest P data = Throw cause
           \/ subtleEncrypt P (getRandomValues P (ivDraws s)) generateEncryptionKey data
              = Throw cause
           \/ exists enc,
                subtleEncrypt P (getRandomValues P (ivDraws s)) generateEncryptionKey data
                = Normal enc
                /\ subtleDigest P enc = Throw cause).
Proof.
  cbv beta iota delta [archiveEvidence tryCatch bind calculateHash encryptData
    liftCompletion GetRandomValues DateNow generateEvidenceId
    MathRandomSuffix registrySet logAuditEvent consoleLog ret throw].
  destruct (subtleDigest P data) as [h1|m1] eqn:H1; simpl.
  - destruct (subtleEncrypt P (getRandomValues P (ivDraws s)) generateEncryptionKey data)
      as [enc|m2] eqn:H2; simpl.
    + destruct (subtleDigest P enc) as [h2|m3] eqn:H3; simpl.
      * intros H. discriminate H.
      * intros H. inversion H; subst; clear H. simpl.
        repeat split. exists m3. split; [reflexivity|].
        right. right. exists enc. auto.
    + intros H. inversion H; subst; clear H. simpl.
      repeat split. exists m2. split; [reflexivity|]. right. now left.
  - intros H. inversion H; subst; clear H.
    repeat split. exists m1. split; [reflexivity|]. now left.
Qed.

(** *** What the custody operations keep of a record *)

(** [e'] is [e] with, at most, custody entries appended and the verified
    mark set. *)
Definition sameEvidence (e e' : VaultEvidence) : Prop :=
  id e' = id e /\ caseId e' = caseId e /\ fileName e' = fileName e
  /\ fileHash e' = fileHash e /\ encryptedHash e' = encryptedHash e
  /\ timestamp e' = timestamp e /\ size e' = size e
  /\ category e' = category e /\ tags e' = tags e /\ metadata e' = metadata e
  /\ status e' = status e /\ encryptionKey e' = encryptionKey e
  /\ (integrityVerified e = true -> integrityVerified e' = true)
  /\ exists added, chainOfCustody e' = (chainOfCustody e ++ added)%list.

Lemma sameEvidence_refl (e : VaultEvidence) : sameEvidence e e.
Proof.
  unfold sameEvidence. repeat split; auto. exists []. now rewrite app_nil_r.
Qed.

Lemma sameEvidence_trans (a b c : VaultEvidence) :
  sameEvidence a b -> sameEvidence b c -> sameEvidence a c.
Proof.
  unfold sameEvidence.
  intros (A1 & A2 & A3 & A4 & A5 & A6 & A7 & A8 & A9 & A10 & A11 & A12 & A13 & x & A14)
         (B1 & B2 & B3 & B4 & B5 & B6 & B7 & B8 & B9 & B10 & B11 & B12 & B13 & y & B14).
  repeat split; try congruence; auto.
  exists (x ++ y)%list. rewrite B14, A14. now rewrite app_assoc.
Qed.

Lemma sameEvidence_push (entry : ChainEntry) (e : VaultEvidence) :
  sameEvidence e (pushChainEntry entry e).
Proof. unfold sameEvidence. simpl. repeat split; auto. now exists [entry]. Qed.

Lemma sameEvidence_setVerified (e : VaultEvidence) :
  sameEvidence e (setIntegrityVerified true e).
Proof.
  unfold sameEvidence. simpl. repeat split; auto. exists []. now rewrite app_nil_r.
Qed.

(** Two registries with the same keys whose records correspond. *)
Definition sameRegistry (m m' : JsMap VaultEvidence) : Prop :=
  Forall2 (fun kv kv' => fst kv' = fst kv /\ sameEvidence (snd kv) (snd kv')) m m'.

Lemma sameRegistry_refl (m : JsMap VaultEvidence) : sameRegistry m m.
Proof.
  induction m as [|kv m IH]; constructor; auto.
  split; [reflexivity | apply sameEvidence_refl].
Qed.

Lemma sameRegistry_trans (a b c : JsMap VaultEvidence) :
  sameRegistry a b -> sameRegistry b c -> sameRegistry a c.
Proof.
  intros Hab. revert c. induction Hab as [|x y a b [Hk He] Hab IH]; intros c Hbc.
  - inversion Hbc. constructor.
  - inversion Hbc as [|y' z b' c' [Hk' He'] Hbc']; subst.
    constructor; [|now apply IH].
    split; [congruence | eapply sameEvidence_trans; eauto].
Qed.

Lemma sameRegistry_update (i : string) (f : VaultEvidence -> VaultEvidence)
    (m : JsMap VaultEvidence) :
  (forall e, sameEvidence e (f e)) -> sameRegistry m (map_update i f m).
Proof.
  intros Hf. induction m as [|[k v] m IH]; simpl; [constructor|].
  destruct (String.eqb k i).
  - constructor; [split; [reflexivity | apply Hf] | apply sameRegistry_refl].
  - constructor; [split; [reflexivity | apply sameEvidence_refl] | exact IH].
Qed.

Lemma runOp_sameRegistry (op : CustodyOp) (s : VaultState) :
  sameRegistry (evidenceRegistry s) (evidenceRegistry (runOp P op s)).
Proof.
  destruct op as [i who purpose | i who | i who fmt]; simpl.
  - cbv beta iota delta [accessEvidence bind registryGet tryCatch DateNow
      mutateEvidence logAuditEvent consoleLog ret].
    destruct (map_get i (evidenceRegistry s)); simpl.
    + apply sameRegistry_update. intros e. apply sameEvidence_push.
    + apply sameRegistry_refl.
  - destruct (map_get i (evidenceRegistry s)) as [ev|] eqn:Hget.
    + rewrite (verifyIntegrity_known P s i who ev Hget). simpl.
      eapply sameRegistry_trans; apply sameRegistry_update; intros e.
      * apply sameEvidence_push.
      * apply sameEvidence_setVerified.
    + rewrite (verifyIntegrity_unknown P s i who Hget). apply sameRegistry_refl.
  - cbv beta iota delta [exportEvidence bind registryGet tryCatch DateNow
      mutateEvidence generateSignature calculateHash liftCompletion
      logAuditEvent consoleLog ret].
    destruct (map_get i (evidenceRegistry s)); simpl.
    + destruct (subtleDigest P _); simpl;
        (apply sameRegistry_update; intros e; apply sameEvidence_push).
    + apply sameRegistry_refl.
Qed.

Lemma runOps_sameRegistry (ops : list CustodyOp) (s : VaultState) :
  sameRegistry (evidenceRegistry s) (evidenceRegistry (runOps P ops s)).
Proof.
  revert s. induction ops as [|op ops IH]; intros s.
  - apply sameRegistry_refl.
  - unfold runOps in *. simpl.
    eapply sameRegistry_trans; [apply runOp_sameRegistry | apply IH].
Qed.

Lemma sameRegistry_get (m m' : JsMap VaultEvidence) (k : string) (e : VaultEvidence) :
  sameRegistry m m' -> map_get k m = Some e ->
  exists e', map_get k m' = Some e' /\ sameEvidence e e'.
Proof.
  induction 1 as [|[k0 v0] [k1 v1] m m' [Hk He] Hrest IH]; simpl;
    [discriminate|].
  simpl in Hk, He. subst k1.
  destruct (String.eqb k0 k).
  - intros H. inversion H; subst. eauto.
  - exact IH.
Qed.

Lemma sameRegistry_summary (m m' : JsMap VaultEvidence) (wanted : string) :
  sameRegistry m m' ->
  let l := filter (fun e => String.eqb (caseId e) wanted) (map_values m) in
  let l' := filter (fun e => String.eqb (caseId e) wanted) (map_values m') in
  List.length l' = List.length l
  /\ map id l' = map id l
  /\ forall start,
       fold_left (fun sum e => sum + size e) l' start
       = fold_left (fun sum e => sum + size e) l start.
Proof.
  induction 1 as [|[k0 v0] [k1 v1] m m' [Hk He] Hrest IH]; simpl.
  - auto.
  - simpl in He. destruct IH as (IH1 & IH2 & IH3).
    destruct He as (Hid & Hcase & _ & _ & _ & _ & Hsize & _).
    rewrite Hcase. destruct (String.eqb (caseId v0) wanted); simpl.
    + rewrite IH1, IH2, Hid, Hsize. repeat split. intros start. apply IH3.
    + auto.
Qed.

(** X3. Whatever [accessEvidence], [verifyIntegrity] and [exportEvidence]
    calls are made, on whatever ids, the registry keeps its keys in order
    and every record keeps its id, case, file name, hashes, timestamp,
    size, category, tags, metadata and status, and its existing custody
    entries; so for every case the summary's [totalEvidence], [totalSize]
    and list of evidence ids are what they were. *)
Theorem custody_calls_keep_the_records (ops : list CustodyOp) (s : VaultState) :
  map fst (evidenceRegistry (runOps P ops s)) = map fst (evidenceRegistry s)
  /\ (forall k e, map_get k (evidenceRegistry s) = Some e ->
        exists e', map_get k (evidenceRegistry (runOps P ops s)) = Some e'
                   /\ sameEvidence e e')
  /\ (forall wanted,
        totalEvidence (getCaseSummary wanted (runOps P ops s))
        = totalEvidence (getCaseSummary wanted s)
        /\ totalSize (getCaseSummary wanted (runOps P ops s))
           = totalSize (getCaseSummary wanted s)
        /\ map id (evidenceList (getCaseSummary wanted (runOps P ops s)))
           = map id (evidenceList (getCaseSummary wanted s))).
Proof.
  pose proof (runOps_sameRegistry ops s) as Hsame.
  split; [|split].
  - induction Hsame as [|x y m m' [Hk _] _ IH]; simpl; congruence.
  - intros k e Hget. eapply sameRegistry_get; eauto.
  - intros wanted.
    destruct (sameRegistry_summary _ _ wanted Hsame) as (H1 & H2 & H3).
    unfold getCaseSummary. simpl. rewrite H1, H2, H3. auto.
Qed.

(** *** Vaults built by the public methods *)

Inductive VaultCall :=
| CallArchive (c f : string) (data : list byte) (md : EvidenceMetadata)
    (tg : list string)
| CallCustody (op : CustodyOp).

Definition runCall (call : VaultCall) (s : VaultState) : VaultState :=
  match call with
  | CallArchive c f data md tg => snd (archiveEvidence P c f data md tg s)
  | CallCustody op => runOp P op s
  end.

Definition runCalls (calls : list VaultCall) (s : VaultState) : VaultState :=
  fold_left (fun st call => runCall call st) calls s.

(** A registry entry as the methods leave it: stored under its own id,
    [archived], marked verified, with a chain that starts with the
    [created] entry carrying the content hash. *)
Definition soundRecord (kv : string * VaultEvidence) : Prop :=
  id (snd kv) = fst kv
  /\ status (snd kv) = status_archived
  /\ integrityVerified (snd kv) = true
  /\ exists e0 rest,
       chainOfCustody (snd kv) = e0 :: rest
       /\ action e0 = created
       /\ hash e0 = Some (fileHash (snd kv)).

Lemma soundRecord_same (m m' : JsMap VaultEvidence) :
  sameRegistry m m' -> Forall soundRecord m -> Forall soundRecord m'.
Proof.
  induction 1 as [|[k0 v0] [k1 v1] m m' [Hk He] Hrest IH]; intros Hall;
    [constructor|].
  inversion Hall as [|? ? Hs Hall']; subst. constructor; [|now apply IH].
  simpl in Hk, He. subst k1.
  destruct Hs as (S1 & S2 & S3 & e0 & rest & S4 & S5 & S6). simpl in *.
  destruct He as (Hid & _ & _ & Hfh & _ & _ & _ & _ & _ & _ & Hst & _ & Hiv & added & Hch).
  unfold soundRecord. simpl. repeat split; try congruence; auto.
  exists e0, (rest ++ added)%list. rewrite Hch, S4, Hfh. auto.
Qed.

Lemma map_set_Forall {V} (Q : string * V -> Prop) (k : string) (v : V) (m : JsMap V) :
  Q (k, v) -> Forall Q m -> Forall Q (map_set k v m).
Proof.
  intros Hq. induction 1 as [|[k' v'] m Hx Hall IH]; simpl.
  - repeat constructor. exact Hq.
  - destruct (String.eqb k' k) eqn:E.
    + apply String.eqb_eq in E. subst k'. constructor; auto.
    + constructor; auto.
Qed.

Lemma map_set_keys {V} (k x : string) (v : V) (m : JsMap V) :
  In x (map fst (map_set k v m)) -> x = k \/ In x (map fst m).
Proof.
  induction m as [|[k' v'] m IH]; simpl.
  - intros [H | []]. now left.
  - destruct (String.eqb k' k); simpl; intros [H | H]; auto.
    destruct (IH H); auto.
Qed.

Lemma map_set_NoDup {V} (k : string) (v : V) (m : JsMap V) :
  NoDup (map fst m) -> NoDup (map fst (map_set k v m)).
Proof.
  induction m as [|[k' v'] m IH]; simpl; intros Hnd.
  - repeat constructor. auto.
  - inversion Hnd as [|? ? Hnotin Hnd']; subst.
    destruct (String.eqb k' k) eqn:E; simpl; [exact Hnd|].
    constructor; [|now apply IH].
    intros Hin. apply map_set_keys in Hin. destruct Hin as [Hin | Hin]; auto.
    subst k'. now rewrite String.eqb_refl in E.
Qed.

Lemma sameRegistry_keys (m m' : JsMap VaultEvidence) :
  sameRegistry m m' -> map fst m' = map fst m.
Proof. induction 1 as [|x y m m' [Hk _] _ IH]; simpl; congruence. Qed.

Lemma archiveEvidence_throw_keeps_registry (s s1 : VaultState) (c f : string)
    (data : list byte) (md : EvidenceMetadata) (tg : list string) (message : string) :
  archiveEvidence P c f data md tg s = (Throw message, s1) ->
  evidenceRegistry s1 = evidenceRegistry s.
Proof.
  cbv beta iota delta [archiveEvidence tryCatch bind calculateHash encryptData
    liftCompletion GetRandomValues DateNow generateEvidenceId
    MathRandomSuffix registrySet logAuditEvent consoleLog ret throw].
  destruct (subtleDigest P data) as [h1|m1]; simpl.
  - destruct (subtleEncrypt P (getRandomValues P (ivDraws s)) generateEncryptionKey data)
      as [enc|m2]; simpl.
    + destruct (subtleDigest P enc) as [h2|m3]; simpl; intros H.
      * discriminate H.
      * now inversion H.
    + intros H. now inversion H.
  - intros H. now inversion H.
Qed.

Lemma runCall_sound (call : VaultCall) (s : VaultState) :
  NoDup (map fst (evidenceRegistry s)) /\ Forall soundRecord (evidenceRegistry s) ->
  NoDup (map fst (evidenceRegistry (runCall call s)))
  /\ Forall soundRecord (evidenceRegistry (runCall call s)).
Proof.
  intros [Hnd Hall]. destruct call as [c f data md tg | op]; simpl.
  - destruct (archiveEvidence P c f data md tg s) as [[ev|message] s1] eqn:Hrun; simpl.
    + pose proof Hrun as Hstored.
      apply archiveEvidence_stored in Hstored.
      destruct Hstored as (_ & _ & e0 & Hc & Ha & _ & Hh & Hst & Hiv).
      revert Hrun.
      cbv beta iota delta [archiveEvidence tryCatch bind calculateHash encryptData
        liftCompletion GetRandomValues DateNow generateEvidenceId
        MathRandomSuffix registrySet logAuditEvent consoleLog ret throw].
      destruct (subtleDigest P data) as [h1|m1]; simpl; [|discriminate].
      destruct (subtleEncrypt P (getRandomValues P (ivDraws s)) generateEncryptionKey data)
        as [enc|m2]; simpl; [|discriminate].
      destruct (subtleDigest P enc) as [h2|m3]; simpl; [|discriminate].
      intros H. inversion H as [[Hev Hs1]]. rewrite Hev. simpl.
      split; [now apply map_set_NoDup|].
      apply map_set_Forall; [|exact Hall].
      unfold soundRecord. simpl. rewrite <- Hev. simpl.
      repeat split. eexists. exists []. repeat split.
    + apply archiveEvidence_throw_keeps_registry in Hrun. rewrite Hrun. auto.
  - pose proof (runOp_sameRegistry op s) as Hsame. split.
    + now rewrite (sameRegistry_keys _ _ Hsame).
    + eapply soundRecord_same; eauto.
Qed.

(** X4. In a vault built from the empty one by any calls of
    [archiveEvidence], [accessEvidence], [verifyIntegrity] and
    [exportEvidence], every record is stored under its own id, has the
    status [archived] and [integrityVerified = true], and its chain starts
    with the [created] entry that carries its content hash: no call sets
    another status or clears the mark.  So [getCaseSummary] reports
    [all_verified] for every case id. *)
Theorem reachable_vault_is_all_verified (calls : list VaultCall) :
  NoDup (map fst (evidenceRegistry (runCalls calls emptyVault)))
  /\ Forall soundRecord (evidenceRegistry (runCalls calls emptyVault))
  /\ forall wanted,
       integrityStatus (getCaseSummary wanted (runCalls calls emptyVault))
       = all_verified.
Proof.
  assert (H : forall s,
             NoDup (map fst (evidenceRegistry s)) /\ Forall soundRecord (evidenceRegistry s) ->
             NoDup (map fst (evidenceRegistry (runCalls calls s)))
             /\ Forall soundRecord (evidenceRegistry (runCalls calls s))).
  { induction calls as [|call calls IH]; intros s Hs; [exact Hs|].
    unfold runCalls in *. simpl. apply IH. now apply runCall_sound. }
  destruct (H emptyVault) as [Hnd Hall].
  { simpl. split; constructor. }
  split; [exact Hnd|]. split; [exact Hall|].
  intros wanted. unfold getCaseSummary. simpl.
  replace (forallb integrityVerified
             (filter (fun e => String.eqb (caseId e) wanted)
                (map_values (evidenceRegistry (runCalls calls emptyVault)))))
    with true; [reflexivity|].
  symmetry. apply forallb_forall. intros e He.
  apply filter_In in He. destruct He as [He _].
  unfold map_values in He. apply in_map_iff in He. destruct He as (kv & Hsnd & Hin).
  rewrite Forall_forall in Hall. destruct (Hall kv Hin) as (_ & _ & Hiv & _).
  now rewrite <- Hsnd.
Qed.

(** *** What a successful or failed call returns and logs *)

(** X5. [exportEvidence] on a known id pushes the [exported] entry before
    it signs.  If hashing the signature payload throws, the call returns
    [success = false] and writes no audit line, but the [exported] entry
    stays on the record's chain. *)
Theorem failed_export_still_logs_custody (s : VaultState) (i who : string)
    (fmt : ExportFormat) (ev : VaultEvidence) (cause : string) :
  map_get i (evidenceRegistry s) = Some ev ->
  subtleDigest P
    (jsonEncode P {| sig_evidenceId := i; sig_hash := fileHash ev;
                     sig_timestamp := dateNow P (S (clockReads s));
                     sig_investigator := who |})
  = Throw cause ->
  exists s',
    exportEvidence P i who fmt s = (Normal exportFailed, s')
    /\ custodyOf i s' = Some (chainOfCustody ev ++ [exportedEntry P s who fmt])%list
    /\ console s' = console s.
Proof.
  intros Hget Hdigest.
  cbv beta iota delta [exportEvidence bind registryGet tryCatch DateNow
    mutateEvidence generateSignature calculateHash liftCompletion
    logAuditEvent consoleLog ret].
  rewrite Hget. simpl. rewrite Hdigest. simpl.
  eexists. split; [reflexivity|]. split; [|reflexivity].
  unfold custodyOf. simpl. rewrite map_get_update_same, Hget. reflexivity.
Qed.

(** X6. [accessEvidence] on a known id returns [success = true] with the
    record as it now is, its chain extended by the [accessed] entry;
    [exportEvidence], when signing succeeds, returns the signature [SIG-]
    followed by the first 32 characters of the payload hash and the chain
    extended by the [exported] entry.  Each reads the clock for the entry
    and again for the audit line, and writes exactly one audit line. *)
Theorem access_and_export_return_the_extended_chain (s : VaultState)
    (i who purpose : string) (fmt : ExportFormat) (ev : VaultEvidence) :
  map_get i (evidenceRegistry s) = Some ev ->
  (exists s',
     accessEvidence P i who purpose s
     = (Normal {| accessSuccess := true;
                  accessEvidenceRecord :=
                    Some (pushChainEntry (accessedEntry P s who purpose) ev);
                  accessMessage := "Evidence accessed - logged in chain-of-custody" |},
        s')
     /\ map_get i (evidenceRegistry s')
        = Some (pushChainEntry (accessedEntry P s who purpose) ev)
     /\ console s'
        = (console s
           ++ [{| auditTimestamp := dateNow P (S (clockReads s));
                  auditCaseId := caseId ev; auditEvidenceId := i;
                  auditAction := "ACCESSED";
                  auditDetails := AccessedDetails who purpose |}])%list)
  /\ (forall digest,
        subtleDigest P
          (jsonEncode P {| sig_evidenceId := i; sig_hash := fileHash ev;
                           sig_timestamp := dateNow P (S (clockReads s));
                           sig_investigator := who |})
        = Normal digest ->
        let signature :=
          "SIG-" ++ String.substring 0 32 (String.concat "" (map byteToHex digest)) in
        exists s',
          exportEvidence P i who fmt s
          = (Normal {| exportSuccess := true; exportData := Some [];
                       exportSignature := Some signature;
                       exportMetadata :=
                         Some {| exportedFileHash := fileHash ev;
                                 exportedTimestamp := timestamp ev;
                                 exportedChainOfCustody :=
                                   (chainOfCustody ev
                                    ++ [exportedEntry P s who fmt])%list |} |},
             s')
          /\ console s'
             = (console s
                ++ [{| auditTimestamp := dateNow P (S (S (clockReads s)));
                       auditCaseId := caseId ev; auditEvidenceId := i;
                       auditAction := "EXPORTED";
                       auditDetails :=
                         ExportedDetails (formatName fmt) who signature |}])%list).
Proof.
  intros Hget. split.
  - cbv beta iota delta [accessEvidence bind registryGet tryCatch DateNow
      mutateEvidence logAuditEvent consoleLog ret].
    rewrite Hget. simpl. rewrite map_get_update_same, Hget. simpl.
    eexists. split; [reflexivity|]. split; [|reflexivity].
    simpl. rewrite map_get_update_same, Hget. reflexivity.
  - intros digest Hdigest signature. subst signature.
    cbv beta iota delta [exportEvidence bind registryGet tryCatch DateNow
      mutateEvidence generateSignature calculateHash liftCompletion
      logAuditEvent consoleLog ret].
    rewrite Hget. simpl. rewrite Hdigest. simpl.
    rewrite map_get_update_same, Hget. simpl.
    eexists. split; reflexivity.
Qed.

Definition isVerify (op : CustodyOp) : bool :=
  match op with OpVerify _ _ => true | _ => false end.

Lemma runOp_console (op : CustodyOp) (s : VaultState) :
  exists added,
    console (runOp P op s) = (console s ++ added)%list
    /\ Forall (fun a => auditAction a = "ACCESSED" \/ auditAction a = "EXPORTED") added
    /\ (List.length added <= if isVerify op then 0 else 1)%nat.
Proof.
  destruct op as [i who purpose | i who | i who fmt]; simpl.
  - cbv beta iota delta [accessEvidence bind registryGet tryCatch DateNow
      mutateEvidence logAuditEvent consoleLog ret].
    destruct (map_get i (evidenceRegistry s)); simpl.
    + eexists. split; [reflexivity|]. split; [repeat constructor | simpl; lia].
    + exists []. rewrite app_nil_r. auto.
  - exists []. rewrite app_nil_r. split; [|auto].
    destruct (map_get i (evidenceRegistry s)) as [ev|] eqn:Hget.
    + now rewrite (verifyIntegrity_known P s i who ev Hget).
    + now rewrite (verifyIntegrity_unknown P s i who Hget).
  - cbv beta iota delta [exportEvidence bind registryGet tryCatch DateNow
      mutateEvidence generateSignature calculateHash liftCompletion
      logAuditEvent consoleLog ret].
    destruct (map_get i (evidenceRegistry s)); simpl.
    + destruct (subtleDigest P _); simpl.
      * eexists. split; [reflexivity|]. split; [|simpl; lia].
        constructor; [now right | constructor].
      * exists []. rewrite app_nil_r. auto.
    + exists []. rewrite app_nil_r. auto.
Qed.

(** X7. Integrity checks leave no trace in the audit log:
    [verifyIntegrity] never calls [logAuditEvent].  Over any sequence of
    custody calls the audit log only grows, by [ACCESSED] and [EXPORTED]
    lines, at most one for each call that is not a verification. *)
Theorem verifications_are_not_audited (ops : list CustodyOp) (s : VaultState) :
  exists added,
    console (runOps P ops s) = (console s ++ added)%list
    /\ Forall (fun a => auditAction a = "ACCESSED" \/ auditAction a = "EXPORTED") added
    /\ (List.length added <= List.length (filter (fun op => negb (isVerify op)) ops))%nat.
Proof.
  revert s. induction ops as [|op ops IH]; intros s.
  - exists []. rewrite app_nil_r. simpl. auto.
  - unfold runOps in *. simpl.
    destruct (runOp_console op s) as (a1 & H1 & F1 & L1).
    destruct (IH (runOp P op s)) as (a2 & H2 & F2 & L2).
    exists (a1 ++ a2)%list. rewrite H2, H1, app_assoc.
    split; [reflexivity|]. split; [apply Forall_app; auto|].
    rewrite length_app. destruct (isVerify op); simpl in *; lia.
Qed.

End VaultBehaviour.

(** *** File categories and hash rendering *)

Section VaultHelpers.

Import EvidenceVault.

Fixpoint hasDot (s : string) : bool :=
  match s with
  | EmptyString => false
  | String c rest => Ascii.eqb c "."%char || hasDot rest
  end.

Lemma splitOn_noDot (s : string) :
  hasDot s = false -> splitOn "."%char s = [s].
Proof.
  induction s as [|c rest IH]; simpl; [reflexivity|].
  destruct (Ascii.eqb c "."%char); simpl; [discriminate|].
  intros H. now rewrite (IH H).
Qed.

Lemma splitOn_after_last_dot (base ext : string) :
  hasDot ext = false ->
  exists h t,
    splitOn "."%char (base ++ String "."%char ext) = h :: t
    /\ t <> []
    /\ last t EmptyString = ext.
Proof.
  intros Hext. induction base as [|c base IH]; simpl.
  - rewrite (splitOn_noDot ext Hext). exists EmptyString, [ext].
    repeat split. discriminate.
  - destruct IH as (h & t & Hsplit & Ht & Hlast). rewrite Hsplit.
    destruct (Ascii.eqb c "."%char).
    + exists EmptyString, (h :: t). repeat split; [discriminate|].
      destruct t; [contradiction | exact Hlast].
    + exists (String c h), t. auto.
Qed.

(** The category of a file name, read off its lower-cased extension. *)
Definition categoryOfExtension (ext : string) : string :=
  if includes ["sql"; "csv"; "json"] ext then "database_export"
  else if includes ["log"; "txt"] ext then "logs"
  else if includes ["pdf"; "doc"; "docx"] ext then "documents"
  else "other".

(** X8. [categorizeFile] looks only at the text after the last dot of the
    file name, lower-cased: a name [base.ext] gets the category of [ext]
    whatever [base] is, and a name without any dot is taken whole as its
    own extension (so a file called [sql] is a database export).  The
    result is always one of the four categories. *)
Theorem categorizeFile_reads_last_extension (base ext : string) :
  hasDot ext = false ->
  categorizeFile (base ++ String "."%char ext) = categoryOfExtension (toLowerCase ext)
  /\ categorizeFile ext = categoryOfExtension (toLowerCase ext)
  /\ In (categorizeFile (base ++ String "."%char ext))
        ["database_export"; "logs"; "documents"; "other"].
Proof.
  intros Hext.
  assert (H1 : categorizeFile (base ++ String "."%char ext)
               = categoryOfExtension (toLowerCase ext)).
  { unfold categorizeFile.
    destruct (splitOn_after_last_dot base ext Hext) as (h & t & Hsplit & Ht & Hlast).
    rewrite Hsplit.
    replace (last (h :: t) EmptyString) with ext; [reflexivity|].
    destruct t; [contradiction | now rewrite <- Hlast]. }
  split; [exact H1|]. split.
  - unfold categorizeFile. now rewrite (splitOn_noDot ext Hext).
  - rewrite H1. unfold categoryOfExtension.
    destruct (includes _ _); [simpl; auto|].
    destruct (includes _ _); [simpl; auto|].
    destruct (includes _ _); simpl; auto.
Qed.

(** Reading a hash string back: two hexadecimal digits a byte. *)
Definition hexValue (c : ascii) : option N :=
  let n := N_of_ascii c in
  if ((48 <=? n) && (n <=? 57))%N then Some (n - 48)%N
  else if ((97 <=? n) && (n <=? 102))%N then Some (n - 87)%N
  else None.

Fixpoint decodeHex (s : string) : option (list byte) :=
  match s with
  | EmptyString => Some []
  | String a (String b rest) =>
      match hexValue a, hexValue b, decodeHex rest with
      | Some x, Some y, Some l =>
          option_map (fun v => v :: l) (Byte.of_N (16 * x + y))
      | _, _, _ => None
      end
  | String _ EmptyString => None
  end.

Definition hexEncode (bytes : list byte) : string :=
  String.concat "" (map byteToHex bytes).

Lemma hexEncode_cons (b : byte) (rest : list byte) :
  hexEncode (b :: rest) = byteToHex b ++ hexEncode rest.
Proof.
  unfold hexEncode. simpl. destruct rest; simpl.
  - unfold byteToHex. reflexivity.
  - reflexivity.
Qed.

Lemma decodeHex_byteToHex (b : byte) (rest : string) (l : list byte) :
  decodeHex rest = Some l -> decodeHex (byteToHex b ++ rest) = Some (b :: l).
Proof.
  intros H. unfold byteToHex.
  cbn [append]. cbn [decodeHex]. rewrite H.
  destruct b; reflexivity.
Qed.

Lemma hexEncode_length (bytes : list byte) :
  String.length (hexEncode bytes) = (2 * List.length bytes)%nat.
Proof.
  induction bytes as [|b rest IH]; [reflexivity|].
  rewrite hexEncode_cons. unfold byteToHex. cbn [append String.length List.length].
  rewrite IH. lia.
Qed.

Lemma decodeHex_hexEncode (bytes : list byte) :
  decodeHex (hexEncode bytes) = Some bytes.
Proof.
  induction bytes as [|b rest IH]; [reflexivity|].
  rewrite hexEncode_cons. now apply decodeHex_byteToHex.
Qed.

(** X9. [calculateHash] renders the digest as lower-case hexadecimal, two
    characters a byte: the string has twice the digest's length and decodes
    back to the digest, so different digests never share a hash string.  A
    digest that throws makes [calculateHash] throw the same message; the
    vault is not touched either way. *)
Theorem calculateHash_is_hex_of_digest (P : Platform) (data : list byte)
    (s : VaultState) :
  match subtleDigest P data with
  | Normal digest =>
      exists h,
        calculateHash P data s = (Normal h, s)
        /\ String.length h = (2 * List.length digest)%nat
        /\ decodeHex h = Some digest
  | Throw cause => calculateHash P data s = (Throw cause, s)
  end
  /\ forall d1 d2 : list byte, hexEncode d1 = hexEncode d2 -> d1 = d2.
Proof.
  split.
  - unfold calculateHash, bind, liftCompletion, ret.
    destruct (subtleDigest P data) as [digest|cause]; [|reflexivity].
    exists (hexEncode digest). split; [reflexivity|].
    split; [apply hexEncode_length | apply decodeHex_hexEncode].
  - intros d1 d2 H.
    pose proof (decodeHex_hexEncode d1) as H1.
    rewrite H, decodeHex_hexEncode in H1. now inversion H1.
Qed.

End VaultHelpers.

(** *** The vault's edge cases on concrete platforms *)

Module VaultEdgeExample.
Import EvidenceVault.

(** A platform whose cipher rejects the key, as [crypto.subtle.encrypt]
    does with an object that is not a [CryptoKey]. *)
Definition rejectingPlatform : Platform :=
  {| dateNow := dateNow VaultExample.platform;
     mathRandomSuffix := mathRandomSuffix VaultExample.platform;
     getRandomValues := getRandomValues VaultExample.platform;
     subtleDigest := subtleDigest VaultExample.platform;
     subtleEncrypt := fun _ _ _ => Throw "parameter 2 is not of type 'CryptoKey'";
     jsonEncode := jsonEncode VaultExample.platform |}.

(** A platform whose digest throws on the signature payload (which
    [jsonEncode] of the example renders as no bytes). *)
Definition unsignablePlatform : Platform :=
  {| dateNow := dateNow VaultExample.platform;
     mathRandomSuffix := mathRandomSuffix VaultExample.platform;
     getRandomValues := getRandomValues VaultExample.platform;
     subtleDigest :=
       fun data =>
         match data with
         | [] => Throw "digest unavailable"
         | _ => subtleDigest VaultExample.platform data
         end;
     subtleEncrypt := subtleEncrypt VaultExample.platform;
     jsonEncode := jsonEncode VaultExample.platform |}.

Definition failedArchive : Completion VaultEvidence * VaultState :=
  Eval vm_compute in
    archiveEvidence rejectingPlatform "case-7" "dump.sql" VaultExample.exportBytes
      VaultExample.sourceMetadata ["fraud"] VaultExample.vault.

End VaultEdgeExample.

Section VaultEdgeExamples.

Import EvidenceVault.
Import VaultExample.
Import VaultEdgeExample.

(** X1 on the example vault, which holds no record [EV-0]. *)
Lemma unknown_id_changes_nothing_witness :
  verifyIntegrity platform "EV-0" "analyst" vault
  = (Throw "Evidence not found: EV-0", vault)
  /\ exportEvidence platform "EV-0" "analyst" decrypted vault
     = (Normal exportFailed, vault).
Proof.
  destruct (unknown_id_changes_nothing platform vault "EV-0" "analyst" "review"
              decrypted ltac:(vm_compute; reflexivity))
    as (Hverify & _ & Hexport).
  split; [exact Hverify | exact Hexport].
Defined.

(** X2 on the example vault with the rejecting cipher: the archival throws
    and the registry still holds the one record it held. *)
Lemma archiveEvidence_failure_stores_nothing_witness :
  fst failedArchive
  = Throw "Evidence archival failed: parameter 2 is not of type 'CryptoKey'"
  /\ evidenceRegistry (snd failedArchive) = evidenceRegistry vault.
Proof.
  split; [reflexivity|].
  exact (proj1 (archiveEvidence_failure_stores_nothing rejectingPlatform vault
                  (snd failedArchive) "case-7" "dump.sql" exportBytes
                  sourceMetadata ["fraud"]
                  "Evidence archival failed: parameter 2 is not of type 'CryptoKey'"
                  ltac:(vm_compute; reflexivity))).
Defined.

(** X5 on the example record, where the payload cannot be hashed. *)
Lemma failed_export_still_logs_custody_witness :
  exists s',
    exportEvidence unsignablePlatform (id record) "analyst" encrypted vault
    = (Normal exportFailed, s')
    /\ custodyOf (id record) s'
       = Some (chainOfCustody record
               ++ [exportedEntry unsignablePlatform vault "analyst" encrypted])%list
    /\ console s' = console vault.
Proof.
  apply (failed_export_still_logs_custody unsignablePlatform vault (id record)
           "analyst" encrypted record "digest unavailable").
  - vm_compute. reflexivity.
  - vm_compute. reflexivity.
Defined.

(** X6 on the example record. *)
Lemma access_and_export_return_the_extended_chain_witness :
  exists s',
    accessEvidence platform (id record) "analyst" "review" vault
    = (Normal {| accessSuccess := true;
                 accessEvidenceRecord :=
                   Some (pushChainEntry (accessedEntry platform vault "analyst" "review")
                           record);
                 accessMessage := "Evidence accessed - logged in chain-of-custody" |},
       s').
Proof.
  destruct (access_and_export_return_the_extended_chain platform vault (id record)
              "analyst" "review" encrypted record ltac:(vm_compute; reflexivity))
    as [(s' & Hrun & _) _].
  exists s'. exact Hrun.
Defined.

(** X8 on [backup.2024.SQL]. *)
Lemma categorizeFile_reads_last_extension_witness :
  categorizeFile "backup.2024.SQL" = "database_export"
  /\ categorizeFile "SQL" = "database_export".
Proof.
  destruct (categorizeFile_reads_last_extension "backup.2024" "SQL" eq_refl)
    as (H1 & H2 & _).
  split; [exact H1 | exact H2].
Defined.

End VaultEdgeExamples.

(** ** The vault claims *)

(** *** Archival on a platform that checks the key *)

Section VaultArchival.

Import EvidenceVault.

Variable P : Platform.

(** [crypto.subtle.encrypt] rejects a key that is not a [CryptoKey];
    [generateEncryptionKey] returns the object literal [{}], which is
    none.  [rejectsKeyObject] says so of the cipher of [P]. *)
Definition rejectsKeyObject : Prop :=
  forall (iv data : list byte), exists message,
    subtleEncrypt P iv generateEncryptionKey data = Throw message.

Lemma archiveEvidence_rejected (c f : string) (data : list byte)
    (md : EvidenceMetadata) (tg : list string) (s : VaultState) :
  rejectsKeyObject ->
  exists message s1,
    archiveEvidence P c f data md tg s = (Throw message, s1)
    /\ evidenceRegistry s1 = evidenceRegistry s
    /\ clockReads s1 = clockReads s
    /\ console s1 = console s.
Proof.
  intros Hrej.
  cbv beta iota delta [archiveEvidence tryCatch bind calculateHash encryptData
    liftCompletion GetRandomValues DateNow generateEvidenceId
    MathRandomSuffix registrySet logAuditEvent consoleLog ret throw].
  destruct (subtleDigest P data) as [h1|m1]; simpl.
  - destruct (Hrej (getRandomValues P (ivDraws s)) data) as [m2 Hm2].
    rewrite Hm2. simpl. do 2 eexists. split; [reflexivity|]. simpl. auto.
  - do 2 eexists. split; [reflexivity|]. auto.
Qed.

Lemma rejected_registry_stays_empty (calls : list VaultCall) :
  rejectsKeyObject ->
  evidenceRegistry (runCalls P calls emptyVault) = [].
Proof.
  intros Hrej.
  assert (H : forall s, evidenceRegistry s = [] ->
                        evidenceRegistry (runCalls P calls s) = []).
  { induction calls as [|call calls IH]; intros s Hs; [exact Hs|].
    unfold runCalls in *. simpl. apply IH.
    destruct call as [c f data md tg | op]; simpl.
    - destruct (archiveEvidence_rejected c f data md tg s Hrej)
        as (message & s1 & Hrun & Hreg & _).
      rewrite Hrun. simpl. congruence.
    - pose proof (runOp_sameRegistry P op s) as Hsame.
      rewrite Hs in Hsame. now inversion Hsame. }
  now apply H.
Qed.

(** *** Custody chains in a vault built by the methods *)










End VaultArchival.

(** *** The claims on concrete vaults *)

Module VaultClaimExample.
Import EvidenceVault.
Import VaultExample.








End VaultClaimExample.

Section VaultClaims.

Import EvidenceVault.
Import VaultExample.
Import VaultEdgeExample.
Import VaultClaimExample.

(** C1, on the code.  [archiveEvidence] encrypts with the object
    [generateEncryptionKey] returns.  On every platform whose cipher
    rejects that object, every call of [archiveEvidence] throws and stores
    nothing, so the registry stays empty whatever is called and
    [verifyIntegrity] throws [Evidence not found] on every id: no
    archive-then-verify pair ends in a valid outcome.  The platform
    [rejectingPlatform] is one, and there the archival of the example
    throws [Evidence archival failed]. *)
Theorem archiveEvidence_never_returns_a_record :
  (forall P : Platform, rejectsKeyObject P ->
     (forall c f data md tg s, exists message s1,
         archiveEvidence P c f data md tg s = (Throw message, s1)
         /\ evidenceRegistry s1 = evidenceRegistry s)
     /\ (forall calls i who,
           verifyIntegrity P i who (runCalls P calls emptyVault)
           = (Throw ("Evidence not found: " ++ i), runCalls P calls emptyVault)))
  /\ rejectsKeyObject rejectingPlatform
  /\ fst (archiveEvidence rejectingPlatform "case-7" "dump.sql" exportBytes
            sourceMetadata ["fraud"] emptyVault)
     = Throw "Evidence archival failed: parameter 2 is not of type 'CryptoKey'".
Proof.
  split; [|split].
  - intros P Hrej. split.
    + intros c f data md tg s.
      destruct (archiveEvidence_rejected P c f data md tg s Hrej)
        as (message & s1 & Hrun & Hreg & _).
      exists message, s1. auto.
    + intros calls i who. apply verifyIntegrity_unknown.
      now rewrite (rejected_registry_stays_empty P calls Hrej).
  - intros iv data. eexists. reflexivity.
  - vm_compute. reflexivity.
Qed.





End VaultClaims.

(** ** The fraud engine: what a report can and cannot contain *)

Section FraudBehaviour.

Import Analytics.
Import FraudDetectionEngine.

Variable toFixed : float -> Z -> string.

(** X10. As shipped, [detectFinancialFraud] never reports a circular
    transfer: no finding has the category [Money Laundering], there are at
    most four findings, the score is the plain sum of the fired
    contributions (the cap at 100 never acts) and is at most 70.  There is
    one recommendation per finding, [suspiciousPatterns] counts the
    findings, and the score is 0 exactly when there is no finding.  On the
    empty list nothing fires. *)
Theorem shipped_fraud_report_bounds (transactions : list Transaction) :
  riskScore (detectFinancialFraud toFixed transactions) <= 70
  /\ riskScore (detectFinancialFraud toFixed transactions)
     = firedContributions (analyzeBenford toFixed transactions) []
         (detectRoundNumbers transactions) (detectDuplicates transactions)
         (detectVelocityAnomalies toFixed transactions)
  /\ (List.length (findings (detectFinancialFraud toFixed transactions)) <= 4)%nat
  /\ Forall (fun f => category f <> "Money Laundering")
       (findings (detectFinancialFraud toFixed transactions))
  /\ List.length (recommendations (detectFinancialFraud toFixed transactions))
     = List.length (findings (detectFinancialFraud toFixed transactions))
  /\ suspiciousPatterns (metadata (detectFinancialFraud toFixed transactions))
     = Z.of_nat (List.length (findings (detectFinancialFraud toFixed transactions)))
  /\ analyzedRecords (metadata (detectFinancialFraud toFixed transactions))
     = Z.of_nat (List.length transactions)
  /\ (riskScore (detectFinancialFraud toFixed transactions) = 0
      <-> findings (detectFinancialFraud toFixed transactions) = [])
  /\ findings (detectFinancialFraud toFixed []) = [].
Proof.
  unfold detectFinancialFraud, detectCircularTransfers.
  generalize (analyzeBenford toFixed transactions) as b.
  generalize (detectRoundNumbers transactions) as r.
  generalize (detectDuplicates transactions) as d.
  generalize (detectVelocityAnomalies toFixed transactions) as v.
  intros v d r b.
  unfold assembleFraudReport, firedContributions, generateFraudRecommendations.
  change (0 <? List.length (@nil Cycle))%nat with false. cbv iota.
  destruct (benfordAnomaly b), (PrimFloat.ltb 30 (percentage r)),
    (0 <? List.length d)%nat, (0 <? List.length v)%nat;
    cbn [riskScore findings recommendations metadata suspiciousPatterns
         analyzedRecords app List.length map category];
    (split; [vm_compute; discriminate|]);
    (split; [reflexivity|]);
    (split; [lia|]);
    (split; [repeat constructor; cbn [category]; discriminate|]);
    (split; [reflexivity|]);
    (split; [reflexivity|]);
    (split; [reflexivity|]);
    (split; [split; intros H; first [reflexivity | discriminate H]|]);
    vm_compute; reflexivity.
Qed.

(** *** Duplicates *)

Lemma firstWithKey_found (k : string) (l : list Transaction) (n i : nat)
    (t : Transaction) :
  firstWithKey k l n = Some (t, i) ->
  (n <= i)%nat
  /\ nth_error l (i - n) = Some t
  /\ duplicateKey t = k
  /\ forall i' t', (i' < i - n)%nat -> nth_error l i' = Some t' ->
                   duplicateKey t' <> k.
Proof.
  revert n. induction l as [|x l IH]; intros n; simpl; [discriminate|].
  destruct (String.eqb (duplicateKey x) k) eqn:E.
  - intros H. inversion H; subst. rewrite Nat.sub_diag.
    apply String.eqb_eq in E. repeat split; auto. intros i' t' Hlt. lia.
  - intros H. apply IH in H. destruct H as (Hle & Hnth & Hkey & Hfirst).
    apply String.eqb_neq in E.
    replace (i - n)%nat with (S (i - S n)) by lia. simpl.
    repeat split; auto; [lia|].
    intros [|i'] t' Hlt Hn; simpl in Hn.
    + inversion Hn; subst. exact E.
    + apply (Hfirst i' t'); [lia | exact Hn].
Qed.

Lemma reportsFrom_In (all l : list Transaction) (j : nat) (d : Duplicate) :
  In d (reportsFrom all j l) ->
  exists k t, nth_error l k = Some t /\ In d (reportedAgainstFirst all (j + k) t).
Proof.
  revert j. induction l as [|t l IH]; intros j; simpl; [contradiction|].
  rewrite in_app_iff. intros [H | H].
  - exists 0%nat, t. rewrite Nat.add_0_r. auto.
  - destruct (IH _ H) as (k & t' & Hn & Hin).
    exists (S k), t'. rewrite Nat.add_succ_r. auto.
Qed.

(** X11. Every report of [detectDuplicates] is sound: the reported
    transaction occurs in the input after the one it is a duplicate of,
    that one is the first transaction of the input with the same key
    [from-to-amount], the two are less than 300 apart, and
    [timeDifference] is the absolute difference of their timestamps. *)
Theorem detectDuplicates_reports_are_sound (transactions : list Transaction)
    (d : Duplicate) :
  In d (detectDuplicates transactions) ->
  0 <= timeDifference d < 300
  /\ exists j first,
       nth_error transactions j = Some (duplicated d)
       /\ nth_error transactions (duplicateOf d) = Some first
       /\ (duplicateOf d < j)%nat
       /\ duplicateKey first = duplicateKey (duplicated d)
       /\ timeDifference d = Z.abs (timestamp (duplicated d) - timestamp first)
       /\ forall i' t', (i' < duplicateOf d)%nat ->
                        nth_error transactions i' = Some t' ->
                        duplicateKey t' <> duplicateKey first.
Proof.
  unfold detectDuplicates.
  pose proof (duplicatesLoop_spec [] transactions [] [] (fun k => eq_refl)) as Hspec.
  simpl in Hspec. rewrite Hspec. intros Hin. apply reportsFrom_In in Hin.
  destruct Hin as (j & t & Hnth & Hin). simpl in Hin.
  unfold reportedAgainstFirst in Hin.
  destruct (firstWithKey (duplicateKey t) transactions 0) as [[first i]|] eqn:Hfirst;
    [|contradiction].
  destruct ((i <? j)%nat && (Z.abs (timestamp t - timestamp first) <? 300)) eqn:Hc;
    [|contradiction].
  destruct Hin as [Hd | []]. subst d. simpl.
  apply andb_true_iff in Hc. destruct Hc as [Hlt Hdiff].
  apply Nat.ltb_lt in Hlt. apply Z.ltb_lt in Hdiff.
  apply firstWithKey_found in Hfirst.
  destruct Hfirst as (_ & Hn & Hkey & Hmin). rewrite Nat.sub_0_r in Hn, Hmin.
  split; [lia|].
  exists j, first. repeat split; auto.
  intros i' t' Hi' Hn'. rewrite Hkey. now apply (Hmin i' t').
Qed.

(** *** Round numbers *)

(** X12. A transaction counts as round exactly when its amount is a
    multiple of 100: the test [amount % 1000 === 0] adds nothing, and the
    amounts 0 and negative multiples count too.  [detectRoundNumbers]
    returns those transactions in input order with their number, which is
    at most the number of transactions. *)
Theorem round_means_multiple_of_100 (transactions : list Transaction) :
  (forall t, isRound t = true <-> exists k, amount t = 100 * k)
  /\ roundTransactions (detectRoundNumbers transactions)
     = filter (fun t => Z.rem (amount t) 100 =? 0) transactions
  /\ roundCount (detectRoundNumbers transactions)
     = Z.of_nat (List.length (roundTransactions (detectRoundNumbers transactions)))
  /\ 0 <= roundCount (detectRoundNumbers transactions)
       <= Z.of_nat (List.length transactions).
Proof.
  assert (Hrem : forall a, (Z.rem a 100 =? 0) || (Z.rem a 1000 =? 0)
                           = (Z.rem a 100 =? 0)).
  { intros a. destruct (Z.rem a 100 =? 0) eqn:E; [reflexivity|]. simpl.
    apply Z.eqb_neq in E. apply Z.eqb_neq. intros H. apply E.
    apply Z.rem_divide; [lia|]. apply Z.rem_divide in H; [|lia].
    destruct H as [q Hq]. exists (q * 10). lia. }
  split; [|split; [|split]].
  - intros t. unfold isRound. rewrite Hrem, Z.eqb_eq, Z.rem_divide by lia.
    split; intros [k Hk]; exists k; lia.
  - unfold detectRoundNumbers. simpl. apply filter_ext.
    intros t. apply Hrem.
  - reflexivity.
  - unfold detectRoundNumbers. simpl.
    pose proof (filter_length_le isRound transactions). lia.
Qed.

(** *** Benford's law *)

Definition negated (t : Transaction) : Transaction :=
  {| from := from t; to := to t; amount := - amount t; timestamp := timestamp t |}.

Lemma StronglySorted_filter {A} (R : A -> A -> Prop) (p : A -> bool) (l : list A) :
  StronglySorted R l -> StronglySorted R (filter p l).
Proof.
  induction 1 as [|x l Hs IH Hx]; simpl; [constructor|].
  destruct (p x); [|exact IH].
  constructor; [exact IH|].
  rewrite Forall_forall in *. intros y Hy. apply filter_In in Hy. apply Hx, Hy.
Qed.

Lemma firstn_In {A} (n : nat) (l : list A) (x : A) :
  In x (firstn n l) -> In x l.
Proof.
  revert l. induction n as [|n IH]; intros [|y l]; simpl; try contradiction.
  intros [H | H]; [now left | right; now apply IH].
Qed.

Lemma flat_map_optional {A B C} (g : A -> B) (proj : B -> C) (key : A -> C)
    (p : A -> bool) (l : list A) :
  (forall a, proj (g a) = key a) ->
  map proj (flat_map (fun a => if p a then [g a] else []) l) = map key (filter p l).
Proof.
  intros H. induction l as [|a l IH]; simpl; [reflexivity|].
  destruct (p a); simpl; [rewrite H|]; now rewrite IH.
Qed.

(** X13. [analyzeBenford] reads only the magnitudes of the non-zero
    amounts: changing the sign of every amount, or dropping the
    transactions of amount 0, does not change its result, and with no
    non-zero amount it reports no anomaly.  The anomalous digits it lists
    are digits 1 to 9 in increasing order, and the amounts it flags are
    at most 10 positive magnitudes. *)
Theorem analyzeBenford_reads_magnitudes (transactions : list Transaction) :
  analyzeBenford toFixed (map negated transactions)
  = analyzeBenford toFixed transactions
  /\ analyzeBenford toFixed (filter (fun t => negb (amount t =? 0)) transactions)
     = analyzeBenford toFixed transactions
  /\ analyzeBenford toFixed []
     = {| benfordAnomaly := false; anomalousDigits := []; flaggedTransactions := [] |}
  /\ StronglySorted Z.lt
       (map digit (anomalousDigits (analyzeBenford toFixed transactions)))
  /\ Forall (fun a => 1 <= digit a <= 9)
       (anomalousDigits (analyzeBenford toFixed transactions))
  /\ Forall (fun a => 0 < a)
       (flaggedTransactions (analyzeBenford toFixed transactions))
  /\ (List.length (flaggedTransactions (analyzeBenford toFixed transactions)) <= 10)%nat.
Proof.
  split; [|split; [|split; [|split; [|split; [|split]]]]].
  - unfold analyzeBenford. rewrite map_map.
    replace (map (fun x => Z.abs (amount (negated x))) transactions)
      with (map (fun t => Z.abs (amount t)) transactions); [reflexivity|].
    apply map_ext. intros t. simpl. now rewrite Z.abs_opp.
  - unfold analyzeBenford.
    replace (filter (fun a => 0 <? a)
               (map (fun t => Z.abs (amount t))
                  (filter (fun t => negb (amount t =? 0)) transactions)))
      with (filter (fun a => 0 <? a) (map (fun t => Z.abs (amount t)) transactions));
      [reflexivity|].
    induction transactions as [|t l IH]; simpl; [reflexivity|].
    destruct (amount t =? 0) eqn:E; simpl.
    + apply Z.eqb_eq in E. rewrite E. simpl. exact IH.
    + now rewrite IH.
  - vm_compute. reflexivity.
  - unfold analyzeBenford. cbn [anomalousDigits].
    set (firstDigits := fold_left tallyDigit _ _). set (total := Z.of_nat _).
    rewrite (flat_map_optional
               (fun d => {| digit := d;
                            deviation := toFixed (digitDeviation firstDigits total d) 2 |})
               digit (fun d => d)
               (fun d => PrimFloat.ltb 20 (digitDeviation firstDigits total d)))
      by reflexivity.
    rewrite map_id. apply StronglySorted_filter.
    repeat constructor; lia.
  - unfold analyzeBenford. cbn [anomalousDigits].
    set (firstDigits := fold_left tallyDigit _ _). set (total := Z.of_nat _).
    apply Forall_flat_map. repeat constructor;
      (destruct (PrimFloat.ltb 20 _); repeat constructor; simpl; lia).
  - unfold analyzeBenford. cbn [flaggedTransactions].
    apply Forall_forall. intros a Ha. apply firstn_In in Ha.
    apply filter_In in Ha. destruct Ha as [_ Ha]. now apply Z.ltb_lt.
  - unfold analyzeBenford. cbn [flaggedTransactions]. apply firstn_le_length.
Qed.

(** *** Velocity *)

Lemma velocity_accounts (g : string * list Transaction -> VelocityAnomaly)
    (p : string * list Transaction -> bool) (m : JsMap (list Transaction)) :
  (forall kv, account (g kv) = fst kv) ->
  NoDup (map fst m) ->
  NoDup (map account (flat_map (fun kv => if p kv then [g kv] else []) m)).
Proof.
  intros Hg Hnd.
  rewrite (flat_map_optional g account fst p m Hg).
  induction m as [|kv m IH]; simpl; [constructor|].
  inversion Hnd as [|? ? Hnotin Hnd']; subst.
  destruct (p kv); simpl; [|now apply IH].
  constructor; [|now apply IH].
  intros Hin. apply Hnotin. apply in_map_iff in Hin.
  destruct Hin as (x & Hx & Hin). apply filter_In in Hin.
  apply in_map_iff. exists x. tauto.
Qed.

(** X14. [detectVelocityAnomalies] reports each account at most once.  The
    [count] of a report is the number of all the input's transactions sent
    by that account, it exceeds 50, and [timeWindow] is the constant 60. *)
Theorem velocity_reports_total_counts (transactions : list Transaction) :
  NoDup (map account (detectVelocityAnomalies toFixed transactions))
  /\ Forall (fun v =>
               count v
               = Z.of_nat (List.length (filter (sentBy (account v)) transactions))
               /\ 50 < count v
               /\ timeWindow v = 60)
       (detectVelocityAnomalies toFixed transactions).
Proof.
  destruct (accountActivity_groups transactions [] []) as [Hnd Hget].
  { split; [constructor | reflexivity]. }
  simpl in Hnd, Hget. unfold detectVelocityAnomalies.
  set (m := fold_left recordActivity transactions []) in *.
  split.
  - apply (velocity_accounts
             (fun kv => {| account := fst kv;
                           count := Z.of_nat (List.length (snd kv));
                           timeWindow := 60;
                           velocity :=
                             toFixed (toNumber (Z.of_nat (List.length (snd kv)))
                                      / toNumber 60)%float 2 |})
             (fun kv => (50 <? List.length (snd kv))%nat) m) in Hnd;
      [|reflexivity].
    erewrite flat_map_ext; [exact Hnd|]. intros [a l]. reflexivity.
  - apply Forall_flat_map. apply Forall_forall. intros [a l] Hin.
    destruct (50 <? List.length l)%nat eqn:Hlen; [|constructor].
    repeat constructor; simpl.
    + apply (In_map_get _ _ _ Hnd) in Hin. rewrite Hget in Hin.
      destruct (existsb (sentBy a) transactions); [|discriminate].
      inversion Hin. reflexivity.
    + apply Nat.ltb_lt in Hlen. lia.
Qed.

End FraudBehaviour.

(** X11 on the two transfers X -> Y of 100 at t = 0 and t = 120. *)
Lemma detectDuplicates_reports_are_sound_witness :
  0 <= 120 < 300
  /\ exists j first,
       nth_error [transfer "X" "Y" 100 0; transfer "X" "Y" 100 120] j
       = Some (transfer "X" "Y" 100 120)
       /\ nth_error [transfer "X" "Y" 100 0; transfer "X" "Y" 100 120] 0 = Some first
       /\ (0 < j)%nat.
Proof.
  destruct (detectDuplicates_reports_are_sound
              [transfer "X" "Y" 100 0; transfer "X" "Y" 100 120]
              {| FraudDetectionEngine.duplicated := transfer "X" "Y" 100 120;
                 FraudDetectionEngine.timeDifference := 120;
                 FraudDetectionEngine.duplicateOf := 0 |}
              (or_introl eq_refl))
    as (Hrange & j & first & H1 & H2 & H3 & _).
  split; [exact Hrange|]. exists j, first. auto.
Defined.

(** ** The timeline engine: sorting, cluster count, off-hours events *)

From Stdlib Require Import Sorting.Permutation.

Section TimelineBehaviour.

Import Analytics.
Import TimelineEngine.

Variable getHours : Z -> Z.

Definition notLater (a b : Event) : Prop := timestamp a <= timestamp b.

Lemma insertEvent_perm (e : Event) (l : list Event) :
  Permutation (e :: l) (insertEvent e l).
Proof.
  induction l as [|x l IH]; simpl; [apply Permutation_refl|].
  destruct (timestamp e <=? timestamp x); [apply Permutation_refl|].
  eapply perm_trans; [apply perm_swap|]. now apply perm_skip.
Qed.

Lemma insertEvent_sorted (e : Event) (l : list Event) :
  StronglySorted notLater l -> StronglySorted notLater (insertEvent e l).
Proof.
  induction 1 as [|x l Hs IH Hx]; simpl.
  - repeat constructor.
  - destruct (timestamp e <=? timestamp x) eqn:E.
    + apply Z.leb_le in E. constructor; [now constructor|].
      constructor; [exact E|].
      eapply Forall_impl; [|exact Hx]. unfold notLater. intros; lia.
    + apply Z.leb_gt in E. constructor; [exact IH|].
      apply Forall_forall. intros y Hy.
      apply (Permutation_in _ (Permutation_sym (insertEvent_perm e l))) in Hy.
      destruct Hy as [Hy | Hy].
      * subst y. unfold notLater. lia.
      * rewrite Forall_forall in Hx. now apply Hx.
Qed.

Lemma insertEvent_stable (t : Z) (e : Event) (l : list Event) :
  filter (fun x => timestamp x =? t) (insertEvent e l)
  = filter (fun x => timestamp x =? t) (e :: l).
Proof.
  induction l as [|x l IH]; simpl; [reflexivity|].
  destruct (timestamp e <=? timestamp x) eqn:E; [reflexivity|].
  apply Z.leb_gt in E. simpl in IH |- *. rewrite IH.
  destruct (timestamp e =? t) eqn:Ee, (timestamp x =? t) eqn:Ex; try reflexivity.
  apply Z.eqb_eq in Ee, Ex. lia.
Qed.

Lemma sortEvents_perm (evs : list Event) : Permutation evs (sortEvents evs).
Proof.
  induction evs as [|e l IH]; simpl; [constructor|].
  eapply perm_trans; [apply perm_skip, IH | apply insertEvent_perm].
Qed.

(** X15. The sort [buildTimeline] applies returns the same events (a
    permutation of the input), in ascending order of timestamp, and is
    stable: the events that share a timestamp come out in the order they
    came in. *)
Theorem sortEvents_sorted_stable_permutation (evs : list Event) :
  Permutation evs (sortEvents evs)
  /\ StronglySorted notLater (sortEvents evs)
  /\ List.length (sortEvents evs) = List.length evs
  /\ forall t, filter (fun x => timestamp x =? t) (sortEvents evs)
               = filter (fun x => timestamp x =? t) evs.
Proof.
  split; [apply sortEvents_perm|]. split; [|split].
  - induction evs as [|e l IH]; simpl; [constructor|].
    apply insertEvent_sorted, IH.
  - symmetry. apply Permutation_length, sortEvents_perm.
  - intros t. induction evs as [|e l IH]; simpl; [reflexivity|].
    change (fold_right insertEvent [] l) with (sortEvents l).
    rewrite insertEvent_stable. simpl. now rewrite IH.
Qed.

(** The number of consecutive events that are at least the threshold
    apart. *)
Fixpoint gapsAfter (previous : Event) (remaining : list Event) : nat :=
  match remaining with
  | [] => 0
  | e :: rest =>
      (if timestamp e - timestamp previous <? timeThreshold then 0 else 1)
      + gapsAfter e rest
  end.

Definition bigGaps (evs : list Event) : nat :=
  match evs with
  | [] => 0
  | first :: rest => gapsAfter first rest
  end.

Lemma clusterLoop_count (remaining : list Event) :
  forall (previous : Event) (current : list Event) (closed : list Cluster),
    current <> [] ->
    Forall (fun c => events c <> []) closed ->
    List.length (clusterLoop previous remaining current closed)
    = (List.length closed + gapsAfter previous remaining)%nat
    /\ Forall (fun c => events c <> []) (clusterLoop previous remaining current closed).
Proof.
  induction remaining as [|e rest IH]; intros previous current closed Hne Hall; simpl.
  - split; [lia | exact Hall].
  - destruct (timestamp e - timestamp previous <? timeThreshold).
    + apply IH; [now destruct current | exact Hall].
    + destruct (IH e [e] (closed ++ [closeCluster current])%list) as [Hlen Hok].
      * discriminate.
      * apply Forall_app. split; [exact Hall|]. repeat constructor. exact Hne.
      * split; [|exact Hok]. rewrite Hlen, length_app. simpl. lia.
Qed.

Lemma identifyEventClusters_length (evs : list Event) :
  List.length (identifyEventClusters evs) = bigGaps evs
  /\ Forall (fun c => events c <> []) (identifyEventClusters evs).
Proof.
  destruct evs as [|first rest]; simpl; [split; [reflexivity | constructor]|].
  destruct (clusterLoop_count rest first [first] []) as [Hlen Hok];
    [discriminate | constructor | auto].
Qed.

(** X16. [identifyEventClusters] returns one cluster for each pair of
    consecutive events that are 60000 ms or more apart, and none of the
    clusters is empty: events that all follow each other within the
    threshold yield no cluster at all.  The cluster count [buildTimeline]
    reports is that number of gaps in the sorted events. *)
Theorem clusters_are_counted_by_gaps (evs : list Event) :
  List.length (identifyEventClusters evs) = bigGaps evs
  /\ Forall (fun c => events c <> []) (identifyEventClusters evs)
  /\ (identifyEventClusters evs = [] <-> bigGaps evs = 0%nat)
  /\ clusters (metadata (buildTimeline getHours evs))
     = Z.of_nat (bigGaps (sortEvents evs)).
Proof.
  destruct (identifyEventClusters_length evs) as [Hlen Hok].
  split; [exact Hlen|]. split; [exact Hok|]. split.
  - rewrite <- Hlen. destruct (identifyEventClusters evs); simpl; split;
      intros H; auto; discriminate.
  - unfold buildTimeline.
    destruct (identifyEventClusters_length (sortEvents evs)) as [Hs _].
    destruct (5 <? _)%nat, (0 <? _)%nat; simpl; now rewrite Hs.
Qed.

(** An event outside the hours 6 to 22. *)
Definition offHours (e : Event) : bool :=
  (getHours (timestamp e) <? 6) || (22 <? getHours (timestamp e)).

Lemma anomalous_events_first_ten (evs : list Event) :
  map anomalousEvent (detectTemporalAnomalies getHours evs)
  = firstn 10 (filter offHours evs).
Proof.
  unfold detectTemporalAnomalies. rewrite <- firstn_map. f_equal.
  transitivity (map (fun e : Event => e) (filter offHours evs)); [|apply map_id].
  exact (flat_map_optional
           (fun event =>
              {| anomalousEvent := event; anomalyType := "off_hours";
                 anomalyDescription :=
                   "Event at " ++ numberToString (getHours (timestamp event))
                   ++ ":00 - outside standard business hours" |})
           anomalousEvent (fun e => e) offHours evs (fun a => eq_refl)).
Qed.

(** X17. [detectTemporalAnomalies] returns the first ten events whose local
    hour is below 6 or above 22, in input order, each tagged [off_hours];
    events at the hours 6 to 22 inclusive are never returned, and events
    beyond the tenth off-hours one are dropped. *)
Theorem temporal_anomalies_are_first_ten_off_hours (evs : list Event) :
  map anomalousEvent (detectTemporalAnomalies getHours evs)
  = firstn 10 (filter offHours evs)
  /\ (List.length (detectTemporalAnomalies getHours evs) <= 10)%nat
  /\ Forall (fun a => anomalyType a = "off_hours"
                      /\ (getHours (timestamp (anomalousEvent a)) < 6
                          \/ 22 < getHours (timestamp (anomalousEvent a))))
       (detectTemporalAnomalies getHours evs).
Proof.
  split; [apply anomalous_events_first_ten|].
  unfold detectTemporalAnomalies. split.
  - apply firstn_le_length.
  - apply Forall_forall. intros a Ha. apply firstn_In in Ha.
    apply in_flat_map in Ha. destruct Ha as (e & _ & Ha).
    destruct ((getHours (timestamp e) <? 6) || (22 <? getHours (timestamp e))) eqn:E;
      [|contradiction].
    destruct Ha as [Ha | []]. subst a. simpl. split; [reflexivity|].
    apply orb_true_iff in E. destruct E as [E | E];
      [left; now apply Z.ltb_lt | right; now apply Z.ltb_lt].
Qed.

Lemma first_ten_nonempty {A} (p : A -> bool) (l : list A) :
  (0 <? List.length (firstn 10 (filter p l)))%nat = existsb p l.
Proof.
  induction l as [|a l IH]; [reflexivity|].
  cbn [filter existsb]. destruct (p a); [reflexivity | exact IH].
Qed.

Lemma existsb_perm {A} (p : A -> bool) (l l' : list A) :
  Permutation l l' -> existsb p l = existsb p l'.
Proof.
  induction 1; simpl; auto.
  - now rewrite IHPermutation.
  - destruct (p x), (p y); reflexivity.
  - congruence.
Qed.

(** X18. The score of [buildTimeline] is 20 when the sorted events have
    more than five gaps of 60000 ms or more, plus 15 when some event is
    off-hours: it is 0, 15, 20 or 35 and is never capped.  There is one
    finding per fired check, [eventCount] is the number of input events,
    and the three recommendations are always the same. *)
Theorem buildTimeline_score (evs : list Event) :
  riskScore (buildTimeline getHours evs)
  = (if (5 <? bigGaps (sortEvents evs))%nat then 20 else 0)
    + (if existsb offHours evs then 15 else 0)
  /\ In (riskScore (buildTimeline getHours evs)) [0; 15; 20; 35]
  /\ map findingId (findings (buildTimeline getHours evs))
     = ((if (5 <? bigGaps (sortEvents evs))%nat then ["timeline-001"] else [])
        ++ (if existsb offHours evs then ["timeline-002"] else []))%list
  /\ eventCount (metadata (buildTimeline getHours evs)) = Z.of_nat (List.length evs)
  /\ List.length (recommendations (buildTimeline getHours evs)) = 3%nat.
Proof.
  pose proof (sortEvents_perm evs) as Hperm.
  pose proof (Permutation_length Hperm) as Hlen. symmetry in Hlen.
  destruct (identifyEventClusters_length (sortEvents evs)) as (Hcount & _).
  assert (Hoff : (0 <? List.length (detectTemporalAnomalies getHours (sortEvents evs)))%nat
                 = existsb offHours evs).
  { rewrite (existsb_perm offHours _ _ Hperm).
    pose proof (anomalous_events_first_ten (sortEvents evs)) as Hmap.
    apply (f_equal (@List.length Event)) in Hmap. rewrite length_map in Hmap.
    rewrite Hmap. apply first_ten_nonempty. }
  unfold buildTimeline. rewrite Hcount, Hoff, Hlen.
  destruct (5 <? bigGaps (sortEvents evs))%nat, (existsb offHours evs); simpl;
    repeat split; auto.
Qed.

End TimelineBehaviour.

(** ** CaseService (case persistence and management)

    The service keeps a [Map] of cases and an index array, and writes the
    map's entries to [localStorage] under one key after every change.  The
    stored item is held here as the list of entries its JSON text encodes
    (the records hold only strings, integers and arrays of strings, which
    [JSON.parse] reads back as they were written).  Whether [localStorage]
    is there and accepts a write is the platform's: [storageAvailable] and
    [storageAccepts].  [searchCases], [exportCase], [importCase] and
    [generateCaseSummary], which rest on Unicode case mapping, JSON text
    and locale formatting, are not embedded. *)

Module CaseService.

Inductive CaseStatus := status_open | status_closed | status_archived.

Inductive CasePriority := low | medium | high | critical.

(** The strings the TypeScript unions stand for. *)
Definition statusName (s : CaseStatus) : string :=
  match s with
  | status_open => "open" | status_closed => "closed" | status_archived => "archived"
  end.

Definition priorityName (p : CasePriority) : string :=
  match p with
  | low => "low" | medium => "medium" | high => "high" | critical => "critical"
  end.

Record CaseRecord := {
  id : string;
  title : string;
  description : string;
  status : CaseStatus;
  priority : CasePriority;
  dbType : string;
  analysisType : string;
  investigator : string;
  createdAt : Z;
  updatedAt : Z;
  startDate : string;
  endDate : option string;
  tags : list string;
  notes : string;
  evidenceCount : Z;
  findingsCount : Z;
  riskScore : Z
}.

(** [Partial<Omit<CaseRecord, 'id' | 'createdAt'>>]: a field that is
    [None] is absent from the object. *)
Record CaseUpdates := {
  newTitle : option string;
  newDescription : option string;
  newStatus : option CaseStatus;
  newPriority : option CasePriority;
  newDbType : option string;
  newAnalysisType : option string;
  newInvestigator : option string;
  newUpdatedAt : option Z;
  newStartDate : option string;
  newEndDate : option string;
  newTags : option (list string);
  newNotes : option string;
  newEvidenceCount : option Z;
  newFindingsCount : option Z;
  newRiskScore : option Z
}.

Definition noUpdates : CaseUpdates :=
  {| newTitle := None; newDescription := None; newStatus := None;
     newPriority := None; newDbType := None; newAnalysisType := None;
     newInvestigator := None; newUpdatedAt := None; newStartDate := None;
     newEndDate := None; newTags := None; newNotes := None;
     newEvidenceCount := None; newFindingsCount := None; newRiskScore := None |}.

Record Platform := {
  dateNow : nat -> Z;
  mathRandomSuffix : nat -> string;
  mathRound : float -> Z;
  storageAvailable : bool;
  storageAccepts : JsMap CaseRecord -> bool
}.

Record ServiceState := {
  cases : JsMap CaseRecord;
  caseIndex : list CaseRecord;
  storedCases : option (JsMap CaseRecord);
  clockReads : nat;
  randomDraws : nat;
  warnings : list string
}.

(** [new CaseService()] over a given [localStorage]. *)
Definition newService (stored : option (JsMap CaseRecord)) : ServiceState :=
  {| cases := []; caseIndex := []; storedCases := stored; clockReads := 0;
     randomDraws := 0; warnings := [] |}.

(** [Map.prototype.delete] *)
Fixpoint map_delete {V} (k : string) (m : JsMap V) : JsMap V :=
  match m with
  | [] => []
  | (k', v) :: rest =>
      if String.eqb k' k then rest else (k', v) :: map_delete k rest
  end.

(** [new Map(entries)] *)
Definition mapOfEntries {V} (entries : list (string * V)) : JsMap V :=
  fold_left (fun m kv => map_set (fst kv) (snd kv) m) entries [].

Definition toUpperAscii (c : ascii) : ascii :=
  let n := nat_of_ascii c in
  if ((97 <=? n) && (n <=? 122))%nat then ascii_of_nat (n - 32) else c.

(** [toUpperCase] on the digits and lower-case letters of a base-36
    rendering. *)
Fixpoint toUpperCase (s : string) : string :=
  match s with
  | EmptyString => EmptyString
  | String c rest => String (toUpperAscii c) (toUpperCase rest)
  end.

Section Methods.

Variable P : Platform.

(** [persist]: the entries are written; a write that throws is caught and
    only warned about. *)
Definition persist (s : ServiceState) : ServiceState :=
  let casesJson := cases s in
  if storageAvailable P && storageAccepts P casesJson
  then {| cases := cases s; caseIndex := caseIndex s;
          storedCases := Some casesJson; clockReads := clockReads s;
          randomDraws := randomDraws s; warnings := warnings s |}
  else {| cases := cases s; caseIndex := caseIndex s;
          storedCases := storedCases s; clockReads := clockReads s;
          randomDraws := randomDraws s;
          warnings := (warnings s ++ ["Failed to persist cases"])%list |}.

Definition createCase (title description dbType analysisType investigator
                       startDate : string) (s : ServiceState)
  : CaseRecord * ServiceState :=
  let newId :=
    "CASE-" ++ numberToString (dateNow P (clockReads s)) ++ "-"
    ++ toUpperCase (mathRandomSuffix P (randomDraws s)) in
  let now := dateNow P (S (clockReads s)) in
  let caseRecord :=
    {| id := newId; title := title; description := description;
       status := status_open; priority := medium; dbType := dbType;
       analysisType := analysisType; investigator := investigator;
       createdAt := now; updatedAt := now; startDate := startDate;
       endDate := None; tags := []; notes := ""; evidenceCount := 0;
       findingsCount := 0; riskScore := 0 |} in
  (caseRecord,
   persist {| cases := map_set newId caseRecord (cases s);
              caseIndex := (caseIndex s ++ [caseRecord])%list;
              storedCases := storedCases s;
              clockReads := S (S (clockReads s));
              randomDraws := S (randomDraws s);
              warnings := warnings s |}).

Definition getCase (caseId : string) (s : ServiceState) : option CaseRecord :=
  map_get caseId (cases s).

Record CaseFilter := {
  filterStatus : option string;
  filterInvestigator : option string;
  filterPriority : option string
}.

(** [if (filter?.field)]: an absent or empty string does not filter. *)
Definition given (field : option string) : option string :=
  match field with
  | Some EmptyString => None
  | other => other
  end.

Definition keepIf (field : option string) (value : CaseRecord -> string)
    (results : list CaseRecord) : list CaseRecord :=
  match given field with
  | Some wanted => filter (fun c => String.eqb (value c) wanted) results
  | None => results
  end.

(** [results.sort((a, b) => b.createdAt - a.createdAt)]: stable, newest
    first. *)
Fixpoint insertCase (c : CaseRecord) (sorted : list CaseRecord) : list CaseRecord :=
  match sorted with
  | [] => [c]
  | x :: rest =>
      if createdAt x <=? createdAt c then c :: sorted
      else x :: insertCase c rest
  end.

Definition sortNewestFirst (results : list CaseRecord) : list CaseRecord :=
  fold_right insertCase [] results.

Definition listCases (filter : option CaseFilter) (s : ServiceState)
  : list CaseRecord :=
  let results := map_values (cases s) in
  let results :=
    keepIf (match filter with Some f => filterStatus f | None => None end)
           (fun c => statusName (status c)) results in
  let results :=
    keepIf (match filter with Some f => filterInvestigator f | None => None end)
           investigator results in
  let results :=
    keepIf (match filter with Some f => filterPriority f | None => None end)
           (fun c => priorityName (priority c)) results in
  sortNewestFirst results.

Definition orElse {A} (o : option A) (d : A) : A :=
  match o with Some a => a | None => d end.

(** [{ ...caseRecord, ...updates, updatedAt: now }] *)
Definition applyUpdates (c : CaseRecord) (u : CaseUpdates) (now : Z) : CaseRecord :=
  {| id := id c;
     title := orElse (newTitle u) (title c);
     description := orElse (newDescription u) (description c);
     status := orElse (newStatus u) (status c);
     priority := orElse (newPriority u) (priority c);
     dbType := orElse (newDbType u) (dbType c);
     analysisType := orElse (newAnalysisType u) (analysisType c);
     investigator := orElse (newInvestigator u) (investigator c);
     createdAt := createdAt c;
     updatedAt := now;
     startDate := orElse (newStartDate u) (startDate c);
     endDate := match newEndDate u with Some d => Some d | None => endDate c end;
     tags := orElse (newTags u) (tags c);
     notes := orElse (newNotes u) (notes c);
     evidenceCount := orElse (newEvidenceCount u) (evidenceCount c);
     findingsCount := orElse (newFindingsCount u) (findingsCount c);
     riskScore := orElse (newRiskScore u) (riskScore c) |}.

(** [updateIndex]: the first index entry with the record's id is replaced. *)
Fixpoint replaceFirst (caseRecord : CaseRecord) (index : list CaseRecord)
  : list CaseRecord :=
  match index with
  | [] => []
  | c :: rest =>
      if String.eqb (id c) (id caseRecord) then caseRecord :: rest
      else c :: replaceFirst caseRecord rest
  end.

Definition updateCase (caseId : string) (updates : CaseUpdates) (s : ServiceState)
  : option CaseRecord * ServiceState :=
  match map_get caseId (cases s) with
  | None => (None, s)
  | Some caseRecord =>
      let updated := applyUpdates caseRecord updates (dateNow P (clockReads s)) in
      (Some updated,
       persist {| cases := map_set caseId updated (cases s);
                  caseIndex := replaceFirst updated (caseIndex s);
                  storedCases := storedCases s;
                  clockReads := S (clockReads s);
                  randomDraws := randomDraws s;
                  warnings := warnings s |})
  end.

Definition closeCase (caseId endDate notes : string) (s : ServiceState)
  : option CaseRecord * ServiceState :=
  updateCase caseId
    {| newTitle := None; newDescription := None; newStatus := Some status_closed;
       newPriority := None; newDbType := None; newAnalysisType := None;
       newInvestigator := None; newUpdatedAt := None; newStartDate := None;
       newEndDate := Some endDate; newTags := None; newNotes := Some notes;
       newEvidenceCount := None; newFindingsCount := None; newRiskScore := None |}
    s.

Definition archiveCase (caseId : string) (s : ServiceState)
  : option CaseRecord * ServiceState :=
  updateCase caseId
    {| newTitle := None; newDescription := None; newStatus := Some status_archived;
       newPriority := None; newDbType := None; newAnalysisType := None;
       newInvestigator := None; newUpdatedAt := None; newStartDate := None;
       newEndDate := None; newTags := None; newNotes := None;
       newEvidenceCount := None; newFindingsCount := None; newRiskScore := None |}
    s.

Definition deleteCase (caseId : string) (s : ServiceState) : bool * ServiceState :=
  if map_has caseId (cases s)
  then (true,
        persist {| cases := map_delete caseId (cases s);
                   caseIndex :=
                     filter (fun c => negb (String.eqb (id c) caseId)) (caseIndex s);
                   storedCases := storedCases s;
                   clockReads := clockReads s;
                   randomDraws := randomDraws s;
                   warnings := warnings s |})
  else (false, s).

Record CaseStatistics := {
  totalCases : Z;
  openCases : Z;
  closedCases : Z;
  archivedCases : Z;
  avgRiskScore : Z;
  totalEvidence : Z;
  totalFindings : Z
}.

Definition hasStatus (wanted : CaseStatus) (c : CaseRecord) : bool :=
  String.eqb (statusName (status c)) (statusName wanted).

Definition getCaseStatistics (s : ServiceState) : CaseStatistics :=
  let all := map_values (cases s) in
  {| totalCases := Z.of_nat (List.length all);
     openCases := Z.of_nat (List.length (filter (hasStatus status_open) all));
     closedCases := Z.of_nat (List.length (filter (hasStatus status_closed) all));
     archivedCases := Z.of_nat (List.length (filter (hasStatus status_archived) all));
     avgRiskScore :=
       if (0 <? List.length all)%nat
       then mathRound P
              (PrimFloat.div
                 (toNumber (fold_left (fun sum c => sum + riskScore c) all 0))
                 (toNumber (Z.of_nat (List.length all))))
       else 0;
     totalEvidence := fold_left (fun sum c => sum + evidenceCount c) all 0;
     totalFindings := fold_left (fun sum c => sum + findingsCount c) all 0 |}.

(** [load]: when the item is there it replaces the map and the index. *)
Definition load (s : ServiceState) : ServiceState :=
  if storageAvailable P
  then match storedCases s with
       | Some entries =>
           {| cases := mapOfEntries entries; caseIndex := map snd entries;
              storedCases := storedCases s; clockReads := clockReads s;
              randomDraws := randomDraws s; warnings := warnings s |}
       | None => s
       end
  else {| cases := cases s; caseIndex := caseIndex s;
          storedCases := storedCases s; clockReads := clockReads s;
          randomDraws := randomDraws s;
          warnings := (warnings s ++ ["Failed to load cases"])%list |}.

Definition clear (s : ServiceState) : ServiceState :=
  if storageAvailable P
  then {| cases := []; caseIndex := []; storedCases := None;
          clockReads := clockReads s; randomDraws := randomDraws s;
          warnings := warnings s |}
  else {| cases := []; caseIndex := []; storedCases := storedCases s;
          clockReads := clockReads s; randomDraws := randomDraws s;
          warnings := (warnings s ++ ["Failed to clear cases"])%list |}.

End Methods.

End CaseService.

(** ** The case service: lookups, updates, deletion, statistics, storage *)

Section JsMapDeletion.

Context {V : Type}.

Lemma map_get_absent (k : string) (m : JsMap V) :
  ~ In k (map fst m) -> map_get k m = None.
Proof.
  induction m as [|[k' v] m IH]; simpl; [reflexivity|].
  intros H. destruct (String.eqb k' k) eqn:E.
  - apply String.eqb_eq in E. subst k'. exfalso. apply H. now left.
  - apply IH. intros Hin. apply H. now right.
Qed.

Lemma map_get_delete_same (k : string) (m : JsMap V) :
  NoDup (map fst m) -> map_get k (CaseService.map_delete k m) = None.
Proof.
  induction m as [|[k' v] m IH]; simpl; [reflexivity|].
  intros Hnd. inversion Hnd as [|? ? Hnotin Hnd']; subst.
  destruct (String.eqb k' k) eqn:E.
  - apply String.eqb_eq in E. subst k'. now apply map_get_absent.
  - simpl. rewrite E. now apply IH.
Qed.

Lemma map_get_delete_other (k k' : string) (m : JsMap V) :
  k <> k' -> map_get k' (CaseService.map_delete k m) = map_get k' m.
Proof.
  intros Hne. induction m as [|[k0 v] m IH]; simpl; [reflexivity|].
  destruct (String.eqb k0 k) eqn:E.
  - apply String.eqb_eq in E. subst k0.
    destruct (String.eqb k k') eqn:E'; [|reflexivity].
    apply String.eqb_eq in E'. contradiction.
  - simpl. now rewrite IH.
Qed.

Lemma map_delete_length (k : string) (v : V) (m : JsMap V) :
  map_get k m = Some v ->
  S (List.length (CaseService.map_delete k m)) = List.length m.
Proof.
  induction m as [|[k0 v0] m IH]; simpl; [discriminate|].
  destruct (String.eqb k0 k); [reflexivity|].
  intros H. simpl. now rewrite IH.
Qed.

Lemma map_set_present_keys (k : string) (v v' : V) (m : JsMap V) :
  map_get k m = Some v -> map fst (map_set k v' m) = map fst m.
Proof.
  induction m as [|[k0 v0] m IH]; simpl; [discriminate|].
  destruct (String.eqb k0 k); [reflexivity|].
  intros H. simpl. now rewrite IH.
Qed.

Lemma mapOfEntries_acc (entries acc : JsMap V) :
  NoDup (map fst (acc ++ entries)) ->
  fold_left (fun m kv => map_set (fst kv) (snd kv) m) entries acc
  = (acc ++ entries)%list.
Proof.
  revert acc. induction entries as [|[k v] entries IH]; intros acc Hnd; simpl.
  - now rewrite app_nil_r.
  - rewrite map_set_absent.
    + rewrite IH; rewrite <- app_assoc; [reflexivity | exact Hnd].
    + apply map_get_absent. rewrite map_app in Hnd. simpl in Hnd.
      apply NoDup_remove_2 in Hnd. intros Hin. apply Hnd.
      apply in_or_app. now left.
Qed.

End JsMapDeletion.

Section CaseServiceBehaviour.

Import CaseService.

Variable P : Platform.

Lemma persist_keeps (s : ServiceState) :
  cases (persist P s) = cases s
  /\ caseIndex (persist P s) = caseIndex s
  /\ clockReads (persist P s) = clockReads s.
Proof.
  unfold persist. destruct (storageAvailable P && storageAccepts P (cases s)); auto.
Qed.

(** X19. [createCase] returns an open case of medium priority with no
    tags, notes, evidence, findings or risk, created and updated at the
    same clock reading (the one after the reading that is written into the
    id).  The case can be fetched by its id at once, it is listed, and
    every case stored under another id is as it was. *)
Theorem createCase_stores_an_open_case
    (title description dbType analysisType investigator startDate : string)
    (s : ServiceState) :
  let created :=
    createCase P title description dbType analysisType investigator startDate s in
  getCase (id (fst created)) (snd created) = Some (fst created)
  /\ id (fst created)
     = "CASE-" ++ numberToString (dateNow P (clockReads s)) ++ "-"
       ++ toUpperCase (mathRandomSuffix P (randomDraws s))
  /\ status (fst created) = status_open
  /\ priority (fst created) = medium
  /\ (evidenceCount (fst created), findingsCount (fst created),
      riskScore (fst created)) = (0, 0, 0)
  /\ (tags (fst created), notes (fst created), endDate (fst created))
     = ([], "", None)
  /\ createdAt (fst created) = dateNow P (S (clockReads s))
  /\ updatedAt (fst created) = createdAt (fst created)
  /\ (forall k, k <> id (fst created) ->
                getCase k (snd created) = getCase k s).
Proof.
  unfold createCase, getCase, persist. cbn [fst snd cases].
  destruct (storageAvailable P && storageAccepts P _);
    cbn [cases id status priority evidenceCount findingsCount
         riskScore tags notes endDate createdAt updatedAt];
    (split; [apply map_get_set_same|]);
    repeat (split; [reflexivity|]);
    intros k Hk; apply map_get_set_other; congruence.
Qed.

(** X20. [updateCase] on a stored id returns the updated record and stores
    it under the same key: the id and [createdAt] are the old ones whatever
    the updates say, [updatedAt] is the clock reading of the call, no case
    is added, removed or moved, and the other cases are untouched.
    [closeCase] sets the status [closed], the end date and the notes;
    [archiveCase] sets the status [archived] and keeps end date and
    notes. *)
Theorem updateCase_keeps_identity (caseId : string) (updates : CaseUpdates)
    (endDate notes : string) (s : ServiceState) (c : CaseRecord) :
  getCase caseId s = Some c ->
  (exists c' s',
     updateCase P caseId updates s = (Some c', s')
     /\ c' = applyUpdates c updates (dateNow P (clockReads s))
     /\ id c' = id c
     /\ createdAt c' = createdAt c
     /\ updatedAt c' = dateNow P (clockReads s)
     /\ getCase caseId s' = Some c'
     /\ (forall k, k <> caseId -> getCase k s' = getCase k s)
     /\ map fst (cases s') = map fst (cases s))
  /\ (exists c' s',
        closeCase P caseId endDate notes s = (Some c', s')
        /\ status c' = status_closed
        /\ CaseService.endDate c' = Some endDate
        /\ CaseService.notes c' = notes
        /\ (title c', description c', priority c', investigator c', tags c')
           = (title c, description c, priority c, investigator c, tags c)
        /\ (evidenceCount c', findingsCount c', riskScore c')
           = (evidenceCount c, findingsCount c, riskScore c))
  /\ (exists c' s',
        archiveCase P caseId s = (Some c', s')
        /\ status c' = status_archived
        /\ CaseService.endDate c' = CaseService.endDate c
        /\ CaseService.notes c' = CaseService.notes c).
Proof.
  unfold getCase. intros Hget.
  assert (Hgen : forall u, exists c' s',
             updateCase P caseId u s = (Some c', s')
             /\ c' = applyUpdates c u (dateNow P (clockReads s))
             /\ getCase caseId s' = Some c'
             /\ (forall k, k <> caseId -> getCase k s' = getCase k s)
             /\ map fst (cases s') = map fst (cases s)).
  { intros u. unfold updateCase, getCase. rewrite Hget.
    do 2 eexists. split; [reflexivity|]. split; [reflexivity|].
    destruct (persist_keeps
                {| cases := map_set caseId
                              (applyUpdates c u (dateNow P (clockReads s))) (cases s);
                   caseIndex := replaceFirst
                                  (applyUpdates c u (dateNow P (clockReads s)))
                                  (caseIndex s);
                   storedCases := storedCases s; clockReads := S (clockReads s);
                   randomDraws := randomDraws s; warnings := warnings s |})
      as (Hcases & _).
    rewrite Hcases. cbn [cases]. split; [apply map_get_set_same|]. split.
    - intros k Hk. now apply map_get_set_other.
    - eapply map_set_present_keys; eauto. }
  split; [|split].
  - destruct (Hgen updates) as (c' & s' & Hrun & Hc & H1 & H2 & H3).
    exists c', s'. subst c'. repeat split; auto.
  - destruct (Hgen {| newTitle := None; newDescription := None;
                      newStatus := Some status_closed; newPriority := None;
                      newDbType := None; newAnalysisType := None;
                      newInvestigator := None; newUpdatedAt := None;
                      newStartDate := None; newEndDate := Some endDate;
                      newTags := None; newNotes := Some notes;
                      newEvidenceCount := None; newFindingsCount := None;
                      newRiskScore := None |})
      as (c' & s' & Hrun & Hc & _).
    exists c', s'. subst c'. repeat split; auto.
  - destruct (Hgen {| newTitle := None; newDescription := None;
                      newStatus := Some status_archived; newPriority := None;
                      newDbType := None; newAnalysisType := None;
                      newInvestigator := None; newUpdatedAt := None;
                      newStartDate := None; newEndDate := None;
                      newTags := None; newNotes := None;
                      newEvidenceCount := None; newFindingsCount := None;
                      newRiskScore := None |})
      as (c' & s' & Hrun & Hc & _).
    exists c', s'. subst c'. repeat split; auto.
Qed.

(** X21. On an id that is not stored, [updateCase], [closeCase] and
    [archiveCase] return [undefined] and [deleteCase] returns [false];
    none of them changes the service, reads the clock or writes to
    storage. *)
Theorem unknown_case_changes_nothing (caseId endDate notes : string)
    (updates : CaseUpdates) (s : ServiceState) :
  getCase caseId s = None ->
  updateCase P caseId updates s = (None, s)
  /\ closeCase P caseId endDate notes s = (None, s)
  /\ archiveCase P caseId s = (None, s)
  /\ deleteCase P caseId s = (false, s).
Proof.
  unfold getCase, closeCase, archiveCase, updateCase, deleteCase, map_has.
  intros Hget. rewrite Hget. auto.
Qed.

(** X22. [deleteCase] on a stored id returns [true]; afterwards the id is
    not found, there is one case fewer, the index holds no record with
    that id, and every other id gives what it gave before. *)
Theorem deleteCase_removes_the_case (caseId : string) (s : ServiceState)
    (c : CaseRecord) :
  NoDup (map fst (cases s)) ->
  getCase caseId s = Some c ->
  exists s',
    deleteCase P caseId s = (true, s')
    /\ getCase caseId s' = None
    /\ S (List.length (cases s')) = List.length (cases s)
    /\ Forall (fun x => id x <> caseId) (caseIndex s')
    /\ (forall k, k <> caseId -> getCase k s' = getCase k s).
Proof.
  unfold getCase, deleteCase, map_has. intros Hnd Hget. rewrite Hget.
  eexists. split; [reflexivity|].
  destruct (persist_keeps
              {| cases := map_delete caseId (cases s);
                 caseIndex := filter (fun x => negb (String.eqb (id x) caseId))
                                (caseIndex s);
                 storedCases := storedCases s; clockReads := clockReads s;
                 randomDraws := randomDraws s; warnings := warnings s |})
    as (Hcases & Hindex & _).
  rewrite Hcases, Hindex. cbn [cases caseIndex].
  split; [now apply map_get_delete_same|].
  split; [eapply map_delete_length; eauto|]. split.
  - apply Forall_forall. intros x Hx. apply filter_In in Hx.
    destruct Hx as [_ Hx]. apply negb_true_iff in Hx. now apply String.eqb_neq.
  - intros k Hk. now apply map_get_delete_other.
Qed.

Lemma status_partition (all : list CaseRecord) :
  List.length all
  = (List.length (filter (hasStatus status_open) all)
     + List.length (filter (hasStatus status_closed) all)
     + List.length (filter (hasStatus status_archived) all))%nat.
Proof.
  induction all as [|c all IH]; simpl; [reflexivity|].
  assert (Ho : hasStatus status_open c = String.eqb (statusName (status c)) "open")
    by reflexivity.
  assert (Hc : hasStatus status_closed c = String.eqb (statusName (status c)) "closed")
    by reflexivity.
  assert (Ha : hasStatus status_archived c
               = String.eqb (statusName (status c)) "archived") by reflexivity.
  rewrite Ho, Hc, Ha. destruct (status c); simpl; lia.
Qed.

(** X23. In [getCaseStatistics] the open, closed and archived counts add up
    to [totalCases], every count is non-negative, and with no case stored
    the average risk score is 0 (no division is made) as are all the
    totals. *)
Theorem statistics_partition_the_cases (s : ServiceState) :
  totalCases (getCaseStatistics P s)
  = openCases (getCaseStatistics P s) + closedCases (getCaseStatistics P s)
    + archivedCases (getCaseStatistics P s)
  /\ 0 <= openCases (getCaseStatistics P s)
  /\ 0 <= closedCases (getCaseStatistics P s)
  /\ 0 <= archivedCases (getCaseStatistics P s)
  /\ getCaseStatistics P (newService (storedCases s))
     = {| totalCases := 0; openCases := 0; closedCases := 0; archivedCases := 0;
          avgRiskScore := 0; totalEvidence := 0; totalFindings := 0 |}.
Proof.
  unfold getCaseStatistics. cbn [totalCases openCases closedCases archivedCases].
  rewrite (status_partition (map_values (cases s))).
  repeat split; try lia.
Qed.

(** *** Listing *)

Definition newerFirst (a b : CaseRecord) : Prop := createdAt b <= createdAt a.

(** A value passes a filter field that is absent or empty, and otherwise
    has to equal it. *)
Definition passes (field : option string) (value : string) : bool :=
  match given field with
  | Some wanted => String.eqb value wanted
  | None => true
  end.

Definition matchesFilter (f : option CaseFilter) (c : CaseRecord) : bool :=
  match f with
  | None => true
  | Some f =>
      passes (filterStatus f) (statusName (status c))
      && passes (filterInvestigator f) (investigator c)
      && passes (filterPriority f) (priorityName (priority c))
  end.

Lemma filter_all {A} (l : list A) : filter (fun _ => true) l = l.
Proof. induction l as [|x l IH]; simpl; congruence. Qed.

Lemma filter_twice {A} (p q : A -> bool) (l : list A) :
  filter q (filter p l) = filter (fun x => p x && q x) l.
Proof.
  induction l as [|x l IH]; simpl; [reflexivity|].
  destruct (p x); simpl; [destruct (q x)|]; now rewrite IH.
Qed.

Lemma keepIf_filter (field : option string) (value : CaseRecord -> string)
    (l : list CaseRecord) :
  keepIf field value l = filter (fun c => passes field (value c)) l.
Proof.
  unfold keepIf, passes. destruct (given field); [reflexivity|].
  now rewrite filter_all.
Qed.

Lemma insertCase_perm (c : CaseRecord) (l : list CaseRecord) :
  Permutation (c :: l) (insertCase c l).
Proof.
  induction l as [|x l IH]; simpl; [apply Permutation_refl|].
  destruct (createdAt x <=? createdAt c); [apply Permutation_refl|].
  eapply perm_trans; [apply perm_swap|]. now apply perm_skip.
Qed.

Lemma insertCase_sorted (c : CaseRecord) (l : list CaseRecord) :
  StronglySorted newerFirst l -> StronglySorted newerFirst (insertCase c l).
Proof.
  induction 1 as [|x l Hs IH Hx]; simpl.
  - repeat constructor.
  - destruct (createdAt x <=? createdAt c) eqn:E.
    + apply Z.leb_le in E. constructor; [now constructor|].
      constructor; [exact E|].
      eapply Forall_impl; [|exact Hx]. unfold newerFirst. intros; lia.
    + apply Z.leb_gt in E. constructor; [exact IH|].
      apply Forall_forall. intros y Hy.
      apply (Permutation_in _ (Permutation_sym (insertCase_perm c l))) in Hy.
      destruct Hy as [Hy | Hy].
      * subst y. unfold newerFirst. lia.
      * rewrite Forall_forall in Hx. now apply Hx.
Qed.

Lemma insertCase_stable (t : Z) (c : CaseRecord) (l : list CaseRecord) :
  filter (fun x => createdAt x =? t) (insertCase c l)
  = filter (fun x => createdAt x =? t) (c :: l).
Proof.
  induction l as [|x l IH]; simpl; [reflexivity|].
  destruct (createdAt x <=? createdAt c) eqn:E; [reflexivity|].
  apply Z.leb_gt in E. simpl in IH |- *. rewrite IH.
  destruct (createdAt c =? t) eqn:Ec, (createdAt x =? t) eqn:Ex; try reflexivity.
  apply Z.eqb_eq in Ec, Ex. lia.
Qed.

Lemma sortNewestFirst_spec (l : list CaseRecord) :
  Permutation l (sortNewestFirst l)
  /\ StronglySorted newerFirst (sortNewestFirst l)
  /\ forall t, filter (fun x => createdAt x =? t) (sortNewestFirst l)
               = filter (fun x => createdAt x =? t) l.
Proof.
  induction l as [|c l (IHp & IHs & IHt)]; simpl.
  - repeat split; constructor.
  - split; [|split].
    + eapply perm_trans; [apply perm_skip, IHp | apply insertCase_perm].
    + now apply insertCase_sorted.
    + intros t. change (fold_right insertCase [] l) with (sortNewestFirst l).
      rewrite insertCase_stable. simpl. now rewrite IHt.
Qed.

(** X24. [listCases] returns exactly the stored cases that equal every
    filter field that is given and not empty (an empty string filters
    nothing), newest first by [createdAt]; cases created at the same
    instant keep the order in which the map holds them. *)
Theorem listCases_filters_then_sorts (f : option CaseFilter) (s : ServiceState) :
  Permutation (filter (matchesFilter f) (map_values (cases s))) (listCases f s)
  /\ StronglySorted newerFirst (listCases f s)
  /\ (forall t, filter (fun x => createdAt x =? t) (listCases f s)
                = filter (fun x => createdAt x =? t)
                    (filter (matchesFilter f) (map_values (cases s))))
  /\ (forall c, In c (listCases f s)
                <-> In c (map_values (cases s)) /\ matchesFilter f c = true)
  /\ listCases (Some {| filterStatus := Some ""; filterInvestigator := None;
                        filterPriority := Some "" |}) s
     = listCases None s.
Proof.
  assert (Hlist : listCases f s
                  = sortNewestFirst (filter (matchesFilter f) (map_values (cases s)))).
  { unfold listCases. rewrite !keepIf_filter, !filter_twice. f_equal.
    apply filter_ext. intros c. unfold matchesFilter, passes.
    destruct f as [f|]; [|reflexivity].
    first [now rewrite andb_assoc | now rewrite <- andb_assoc]. }
  destruct (sortNewestFirst_spec (filter (matchesFilter f) (map_values (cases s))))
    as (Hp & Hs & Ht).
  rewrite Hlist. split; [exact Hp|]. split; [exact Hs|]. split; [exact Ht|]. split.
  - intros c. rewrite <- filter_In. split; intros H.
    + eapply Permutation_in; [apply Permutation_sym, Hp | exact H].
    + eapply Permutation_in; [exact Hp | exact H].
  - reflexivity.
Qed.

(** *** Storage *)

(** X25. When [localStorage] is there and takes the write, what [persist]
    stores brings back, in a new service that calls [load], the same map
    of cases in the same order, with the index holding the map's values.
    When the write fails the stored item stays as it was and a warning is
    logged, so a later [load] sees the older cases. *)
Theorem stored_cases_survive_a_reload (s : ServiceState) :
  NoDup (map fst (cases s)) ->
  (storageAvailable P = true -> storageAccepts P (cases s) = true ->
   cases (load P (newService (storedCases (persist P s)))) = cases s
   /\ caseIndex (load P (newService (storedCases (persist P s))))
      = map_values (cases s)
   /\ forall k, getCase k (load P (newService (storedCases (persist P s))))
                = getCase k s)
  /\ (storageAvailable P && storageAccepts P (cases s) = false ->
      storedCases (persist P s) = storedCases s
      /\ warnings (persist P s) = (warnings s ++ ["Failed to persist cases"])%list).
Proof.
  intros Hnd. split.
  - intros Hav Hacc. unfold persist, load, newService, getCase.
    rewrite Hav, Hacc. cbn [andb storedCases cases caseIndex].
    unfold mapOfEntries. rewrite (mapOfEntries_acc (cases s) []) by exact Hnd.
    auto.
  - intros Hfail. unfold persist. rewrite Hfail. auto.
Qed.

(** *** Services built by the public methods *)

Inductive ServiceCall :=
| DoCreate (title description dbType analysisType investigator startDate : string)
| DoUpdate (caseId : string) (updates : CaseUpdates)
| DoClose (caseId endDate notes : string)
| DoArchive (caseId : string)
| DoDelete (caseId : string)
| DoClear.

Definition runServiceCall (call : ServiceCall) (s : ServiceState) : ServiceState :=
  match call with
  | DoCreate t d db a i sd => snd (createCase P t d db a i sd s)
  | DoUpdate k u => snd (updateCase P k u s)
  | DoClose k e n => snd (closeCase P k e n s)
  | DoArchive k => snd (archiveCase P k s)
  | DoDelete k => snd (deleteCase P k s)
  | DoClear => clear P s
  end.

Definition runServiceCalls (calls : list ServiceCall) (s : ServiceState)
  : ServiceState :=
  fold_left (fun st call => runServiceCall call st) calls s.

Definition keyedById (m : JsMap CaseRecord) : Prop :=
  NoDup (map fst m) /\ Forall (fun kv => id (snd kv) = fst kv) m.

Lemma map_delete_keyed (k : string) (m : JsMap CaseRecord) :
  keyedById m -> keyedById (map_delete k m).
Proof.
  intros [Hnd Hall]. induction m as [|[k0 v0] m IH]; simpl; [split; constructor|].
  inversion Hnd as [|? ? Hnotin Hnd']; subst.
  inversion Hall as [|? ? Hid Hall']; subst.
  destruct (String.eqb k0 k); [split; assumption|].
  destruct (IH Hnd' Hall') as [IH1 IH2]. split; constructor; auto.
  simpl. intros Hin. apply Hnotin.
  clear - Hin. induction m as [|[k1 v1] m IHm]; simpl in *; [contradiction|].
  destruct (String.eqb k1 k); simpl in *; [now right|].
  destruct Hin as [Hin | Hin]; [now left | right; now apply IHm].
Qed.

Lemma updateCase_keyed (k : string) (u : CaseUpdates) (s : ServiceState) :
  keyedById (cases s) -> keyedById (cases (snd (updateCase P k u s))).
Proof.
  intros [Hnd Hall]. unfold updateCase.
  destruct (map_get k (cases s)) as [c|] eqn:Hget; [|split; assumption].
  cbn [snd]. destruct (persist_keeps
    {| cases := map_set k (applyUpdates c u (dateNow P (clockReads s))) (cases s);
       caseIndex := replaceFirst (applyUpdates c u (dateNow P (clockReads s)))
                      (caseIndex s);
       storedCases := storedCases s; clockReads := S (clockReads s);
       randomDraws := randomDraws s; warnings := warnings s |}) as (Hc & _).
  rewrite Hc. cbn [cases]. split; [now apply map_set_NoDup|].
  apply map_set_Forall; [|exact Hall]. simpl.
  apply map_get_In in Hget. rewrite Forall_forall in Hall.
  exact (Hall _ Hget).
Qed.

(** X26. In a service that starts empty and is driven by any calls of
    [createCase], [updateCase], [closeCase], [archiveCase], [deleteCase]
    and [clear], every case is stored under its own id and no id occurs
    twice: [getCase k] can only return a record whose id is [k]. *)
Theorem cases_are_keyed_by_their_id (calls : list ServiceCall)
    (stored : option (JsMap CaseRecord)) :
  keyedById (cases (runServiceCalls calls (newService stored)))
  /\ forall k c, getCase k (runServiceCalls calls (newService stored)) = Some c ->
                 id c = k.
Proof.
  assert (Hstep : forall call s, keyedById (cases s) ->
                                 keyedById (cases (runServiceCall call s))).
  { intros call s Hs. destruct call; simpl.
    - unfold createCase, persist. cbn [snd cases].
      destruct (storageAvailable P && storageAccepts P _); cbn [cases];
        destruct Hs as [Hnd Hall];
        (split; [now apply map_set_NoDup | apply map_set_Forall; [reflexivity | exact Hall]]).
    - now apply updateCase_keyed.
    - now apply updateCase_keyed.
    - now apply updateCase_keyed.
    - unfold deleteCase. destruct (map_has caseId (cases s)); [|exact Hs].
      cbn [snd]. unfold persist. cbn [cases].
      destruct (storageAvailable P && storageAccepts P _); cbn [cases];
        now apply map_delete_keyed.
    - unfold clear. destruct (storageAvailable P); split; constructor. }
  assert (Hall : forall s, keyedById (cases s) ->
                           keyedById (cases (runServiceCalls calls s))).
  { induction calls as [|call calls IH]; intros s Hs; [exact Hs|].
    unfold runServiceCalls in *. simpl. apply IH. now apply Hstep. }
  assert (H : keyedById (cases (runServiceCalls calls (newService stored)))).
  { apply Hall. split; constructor. }
  split; [exact H|].
  intros k c Hget. unfold getCase in Hget. apply map_get_In in Hget.
  destruct H as [_ Hids]. rewrite Forall_forall in Hids. exact (Hids _ Hget).
Qed.

End CaseServiceBehaviour.

(** *** The case service on a concrete platform *)

Module CaseExample.
Import CaseService.

Definition platform : Platform :=
  {| dateNow := fun k => 1700000000000 + 1000 * Z.of_nat k;
     mathRandomSuffix := fun k => "q7x" ++ numberToString (Z.of_nat k);
     mathRound := fun _ => 0;
     storageAvailable := true;
     storageAccepts := fun _ => true |}.

(** A new service in which one case has been created. *)
Definition created : CaseRecord * ServiceState :=
  Eval vm_compute in
    createCase platform "Ledger fraud" "Suspicious transfers" "mysql" "forensic"
      "R. Patel" "2024-01-15" (newService None).

Definition theCase : CaseRecord := fst created.

Definition service : ServiceState := snd created.

End CaseExample.

Section CaseExamples.

Import CaseService.
Import CaseExample.

(** X20 on the example: closing the created case. *)
Lemma updateCase_keeps_identity_witness :
  exists c' s',
    closeCase platform (id theCase) "2024-06-30" "Referred to counsel" service
    = (Some c', s')
    /\ status c' = status_closed
    /\ endDate c' = Some "2024-06-30".
Proof.
  destruct (updateCase_keeps_identity platform (id theCase) noUpdates
              "2024-06-30" "Referred to counsel" service theCase
              ltac:(vm_compute; reflexivity))
    as (_ & (c' & s' & Hrun & Hst & Hend & _) & _).
  exists c', s'. auto.
Defined.

(** X21 on the example, which holds no case [CASE-0]. *)
Lemma unknown_case_changes_nothing_witness :
  archiveCase platform "CASE-0" service = (None, service)
  /\ deleteCase platform "CASE-0" service = (false, service).
Proof.
  destruct (unknown_case_changes_nothing platform "CASE-0" "" "" noUpdates service
              ltac:(vm_compute; reflexivity))
    as (_ & _ & Harchive & Hdelete).
  split; [exact Harchive | exact Hdelete].
Defined.

(** X22 on the example: deleting the created case. *)
Lemma deleteCase_removes_the_case_witness :
  exists s',
    deleteCase platform (id theCase) service = (true, s')
    /\ getCase (id theCase) s' = None.
Proof.
  destruct (deleteCase_removes_the_case platform (id theCase) service theCase
              ltac:(vm_compute; repeat constructor; intros [])
              ltac:(vm_compute; reflexivity))
    as (s' & Hrun & Hgone & _).
  exists s'. auto.
Defined.

(** X25 on the example: a new service that loads what was persisted. *)
Lemma stored_cases_survive_a_reload_witness :
  cases (load platform (newService (storedCases (persist platform service))))
  = cases service.
Proof.
  destruct (stored_cases_survive_a_reload platform service
              ltac:(vm_compute; repeat constructor; intros []))
    as (Hreload & _).
  destruct (Hreload eq_refl eq_refl) as (Hcases & _).
  exact Hcases.
Defined.

End CaseExamples.
